(** * MemoryPal: the sequence-recall game engine

    A shallow embedding of [class SequenceGame] of
    [src/scripts/games/sequence.js].  The object's fields are a record, its
    methods are computations in a small state-and-exception monad over a
    [world] made of the object, the part of the page the methods read, the
    pending [setTimeout] callbacks, a clock, the future results of
    [Math.random()] and a log of the calls made to the feedback element and
    to the storage collaborator.  Every method keeps its source name. *)

From Stdlib Require Import ZArith QArith List String Bool Lia.
Import ListNotations.
Close Scope Q_scope.
Open Scope string_scope.
Open Scope list_scope.
Open Scope Z_scope.

(** ** Data model *)

(** A color is the string carried by a button's [data-color] attribute. *)
Definition color : Type := string.

(** [this.colors] (never reassigned after the constructor). *)
Definition colors : list color := ["red"; "blue"; "green"; "yellow"].

(** The fields of a [SequenceGame] object.  [level] and [score] are JavaScript
    numbers that only ever hold integers ([level++], [score += 10 * level],
    [score += level * 50]); they are modelled as unbounded integers.
    [gameSession] records whether a (truthy) session handle is held. *)
Record game : Type := mkGame {
  sequence : list color;
  playerSequence : list color;
  level : Z;
  score : Z;
  isPlaying : bool;
  isShowingSequence : bool;
  isPlayerTurn : bool;
  isPaused : bool;
  gameSession : bool;
  difficulty : string;
  speed : Z
}.

Definition set_sequence (v : list color) (g : game) : game :=
  mkGame v (playerSequence g) (level g) (score g) (isPlaying g)
         (isShowingSequence g) (isPlayerTurn g) (isPaused g) (gameSession g)
         (difficulty g) (speed g).
Definition set_playerSequence (v : list color) (g : game) : game :=
  mkGame (sequence g) v (level g) (score g) (isPlaying g)
         (isShowingSequence g) (isPlayerTurn g) (isPaused g) (gameSession g)
         (difficulty g) (speed g).
Definition set_level (v : Z) (g : game) : game :=
  mkGame (sequence g) (playerSequence g) v (score g) (isPlaying g)
         (isShowingSequence g) (isPlayerTurn g) (isPaused g) (gameSession g)
         (difficulty g) (speed g).
Definition set_score (v : Z) (g : game) : game :=
  mkGame (sequence g) (playerSequence g) (level g) v (isPlaying g)
         (isShowingSequence g) (isPlayerTurn g) (isPaused g) (gameSession g)
         (difficulty g) (speed g).
Definition set_isPlaying (v : bool) (g : game) : game :=
  mkGame (sequence g) (playerSequence g) (level g) (score g) v
         (isShowingSequence g) (isPlayerTurn g) (isPaused g) (gameSession g)
         (difficulty g) (speed g).
Definition set_isShowingSequence (v : bool) (g : game) : game :=
  mkGame (sequence g) (playerSequence g) (level g) (score g) (isPlaying g)
         v (isPlayerTurn g) (isPaused g) (gameSession g)
         (difficulty g) (speed g).
Definition set_isPlayerTurn (v : bool) (g : game) : game :=
  mkGame (sequence g) (playerSequence g) (level g) (score g) (isPlaying g)
         (isShowingSequence g) v (isPaused g) (gameSession g)
         (difficulty g) (speed g).
Definition set_isPaused (v : bool) (g : game) : game :=
  mkGame (sequence g) (playerSequence g) (level g) (score g) (isPlaying g)
         (isShowingSequence g) (isPlayerTurn g) v (gameSession g)
         (difficulty g) (speed g).
Definition set_gameSession (v : bool) (g : game) : game :=
  mkGame (sequence g) (playerSequence g) (level g) (score g) (isPlaying g)
         (isShowingSequence g) (isPlayerTurn g) (isPaused g) v
         (difficulty g) (speed g).
Definition set_difficulty (v : string) (g : game) : game :=
  mkGame (sequence g) (playerSequence g) (level g) (score g) (isPlaying g)
         (isShowingSequence g) (isPlayerTurn g) (isPaused g) (gameSession g)
         v (speed g).
Definition set_speed (v : Z) (g : game) : game :=
  mkGame (sequence g) (playerSequence g) (level g) (score g) (isPlaying g)
         (isShowingSequence g) (isPlayerTurn g) (isPaused g) (gameSession g)
         (difficulty g) v.

(** What the methods read from their surroundings: which of the elements
    they dereference without a guard exist ([getElementById] gives [null]
    otherwise), the [data-color] values for which
    [document.querySelector('[data-color=...]')] finds an element, whether
    the feedback element exists and whether [window.storageManager] is set. *)
Record page : Type := mkPage {
  has_gameArea : bool;
  has_board : bool;
  has_pauseBtn : bool;
  has_feedback : bool;
  has_storage : bool;
  buttonColors : list color
}.

(** The page the script is written for: every element is there, the four
    buttons carry the four entries of [this.colors]. *)
Definition game_page : page := mkPage true true true true true colors.

(** The texts handed to [showFeedback]. *)
Inductive feedback : Type :=
| WatchTheSequence
| YourTurn
| WrongColor (expected : option color)
| LevelComplete (lv : Z)
| GameOver (finalScore : Z)
| GamePaused.

(** Calls that leave the object: to the feedback element, to the button
    that is flashed during the presentation, to the storage manager. *)
Inductive effect : Type :=
| Feedback (m : feedback)
| FeedbackCleared
| Flash (c : color) (i : nat)
| RecordGameStart
| RecordGameEnd (finalScore lv : Z).

(** The callbacks the methods hand to [setTimeout] that touch the object.
    (Callbacks that only remove a CSS class are left out.) *)
Inductive task : Type :=
| TEndGame
| TLevelUp
| TShowResume (i : nat) (interval : Z)
| TShowRestartOption.

Inductive exn : Type := TypeError.

Record world : Type := mkWorld {
  pg : page;
  gm : game;
  buttonsDisabled : bool;
  now : Z;
  timers : list (Z * task);
  rng : list Z;
  log : list effect
}.

Definition set_gm (v : game) (w : world) : world :=
  mkWorld (pg w) v (buttonsDisabled w) (now w) (timers w) (rng w) (log w).
Definition set_buttonsDisabled (v : bool) (w : world) : world :=
  mkWorld (pg w) (gm w) v (now w) (timers w) (rng w) (log w).
Definition set_now (v : Z) (w : world) : world :=
  mkWorld (pg w) (gm w) (buttonsDisabled w) v (timers w) (rng w) (log w).
Definition set_timers (v : list (Z * task)) (w : world) : world :=
  mkWorld (pg w) (gm w) (buttonsDisabled w) (now w) v (rng w) (log w).
Definition set_rng (v : list Z) (w : world) : world :=
  mkWorld (pg w) (gm w) (buttonsDisabled w) (now w) (timers w) v (log w).
Definition set_log (v : list effect) (w : world) : world :=
  mkWorld (pg w) (gm w) (buttonsDisabled w) (now w) (timers w) (rng w) v.

(** ** The monad of the methods *)

(** A method returns, throws, or is still inside a loop on [Math.random()]
    when the recorded draws run out ([Starved]). *)
Inductive outcome (A : Type) : Type :=
| Returns (a : A) (w : world)
| Throws (e : exn) (w : world)
| Starved.
Arguments Returns {A} a w.
Arguments Throws {A} e w.
Arguments Starved {A}.

Definition M (A : Type) : Type := world -> outcome A.

Definition ret {A : Type} (a : A) : M A := fun w => Returns a w.

Definition bind {A B : Type} (m : M A) (k : A -> M B) : M B :=
  fun w =>
    match m w with
    | Returns a w' => k a w'
    | Throws e w' => Throws e w'
    | Starved => Starved
    end.

Notation "x <- m ;; k" := (bind m (fun x => k))
  (at level 61, m at next level, right associativity).
Notation "m ;; k" := (bind m (fun _ => k))
  (at level 61, right associativity).

Definition throw {A : Type} (e : exn) : M A := fun w => Throws e w.
Definition this : M game := fun w => Returns (gm w) w.
Definition assign (f : game -> game) : M unit :=
  fun w => Returns tt (set_gm (f (gm w)) w).
Definition document : M page := fun w => Returns (pg w) w.
Definition emit (e : effect) : M unit :=
  fun w => Returns tt (set_log (log w ++ [e]) w).
Definition when (b : bool) (m : M unit) : M unit := if b then m else ret tt.

(** [setTimeout(callback, delay)]. *)
Definition setTimeout (t : task) (delay : Z) : M unit :=
  fun w => Returns tt (set_timers (timers w ++ [(now w + delay, t)]) w).

(** [Math.random()] yields a double in [0, 1); a recorded draw [k] stands for
    [k / 2^53].  [index_of_draw k n] is [Math.floor(Math.random() * n)]; the
    product is exact in double arithmetic for [n = 4], the length of
    [this.colors]. *)
Definition index_of_draw (k : Z) (n : nat) : nat :=
  Z.to_nat ((k mod 2 ^ 53) * Z.of_nat n / 2 ^ 53).

Arguments index_of_draw : simpl never.

Definition random_index (n : nat) : M nat :=
  fun w =>
    match rng w with
    | [] => Starved
    | k :: rest => Returns (index_of_draw k n) (set_rng rest w)
    end.

(** [document.querySelector(`[data-color="${color}"]`)] is not [null].
    The color is pasted into the selector text.  For a color that is plain
    text the selector is the attribute test "[data-color] equals the
    color", and the lookup finds an element exactly when a button carries
    that value; this is the case of every value handed over by a button's
    own listener on the page the script is written for. *)
Definition colorBtn_exists (p : page) (c : color) : bool :=
  existsb (String.eqb c) (buttonColors p).



(** ** The methods *)

Definition enableColorButtons : M unit :=
  fun w => Returns tt (set_buttonsDisabled false w).

Definition disableColorButtons : M unit :=
  fun w => Returns tt (set_buttonsDisabled true w).

Definition showFeedback (m : feedback) : M unit :=
  p <- document ;; when (has_feedback p) (emit (Feedback m)).

Definition clearFeedback : M unit :=
  p <- document ;; when (has_feedback p) (emit FeedbackCleared).

Definition resetGame : M unit :=
  assign (set_sequence []) ;;
  assign (set_playerSequence []) ;;
  assign (set_level 1) ;;
  assign (set_score 0) ;;
  assign (set_isPlaying false) ;;
  assign (set_isShowingSequence false) ;;
  assign (set_isPlayerTurn false) ;;
  assign (set_isPaused false) ;;
  enableColorButtons ;;
  clearFeedback.

(** [this.colors[Math.floor(Math.random() * this.colors.length)]]. *)
Definition randomColor : M color :=
  i <- random_index (List.length colors) ;; ret (nth i colors "").

(** [getRecentErrorRate] returns the literal [0.3]. *)
Definition getRecentErrorRate : Q := (3 # 10)%Q.

Definition Qgt_bool (a b : Q) : bool := negb (Qle_bool a b).
Definition Qlt_bool (a b : Q) : bool := negb (Qle_bool b a).

Definition getAdaptiveColor : M color :=
  let recentErrors := getRecentErrorRate in
  if Qgt_bool recentErrors (1 # 2)%Q then
    g <- this ;;
    let availableColors :=
      filter (fun c => (List.length (sequence g) =? 0)%nat
                       || negb (String.eqb c (last (sequence g) "")))
             colors in
    i <- random_index (List.length availableColors) ;;
    ret (nth i availableColors "")
  else if Qlt_bool recentErrors (1 # 5)%Q then randomColor
  else randomColor.

(** The [do ... while] of the ["easy"] case, run on the recorded draws: a
    draw equal to the last element of a non-empty sequence is thrown away
    and the loop goes round again. *)
Fixpoint easy_loop (seq : list color) (tape : list Z)
  : option (color * list Z) :=
  match tape with
  | [] => None
  | k :: rest =>
      let newColor := nth (index_of_draw k (List.length colors)) colors "" in
      if (0 <? List.length seq)%nat && String.eqb newColor (last seq "")
      then easy_loop seq rest
      else Some (newColor, rest)
  end.

Definition easyColor : M color :=
  fun w =>
    match easy_loop (sequence (gm w)) (rng w) with
    | None => Starved
    | Some (c, rest) => Returns c (set_rng rest w)
    end.

(** The [switch (this.difficulty)] of [addToSequence]. *)
Definition nextColor (d : string) : M color :=
  if String.eqb d "easy" then easyColor
  else if String.eqb d "medium" then randomColor
  else if String.eqb d "hard" then randomColor
  else if String.eqb d "adaptive" then getAdaptiveColor
  else randomColor.

Definition addToSequence : M unit :=
  g <- this ;;
  newColor <- nextColor (difficulty g) ;;
  assign (fun g => set_sequence (sequence g ++ [newColor]) g).

Definition startPlayerTurn : M unit :=
  assign (set_isShowingSequence false) ;;
  assign (set_isPlayerTurn true) ;;
  enableColorButtons ;;
  showFeedback YourTurn.

(** [800 * [1.5, 1.25, 1.0, 0.8, 0.6][speed - 1]]: each product is an exact
    integer in double arithmetic.  Any other [speed] indexes outside the
    array, the product is [NaN] and the timer is set with no delay. *)
Definition interval_of (sp : Z) : Z :=
  match sp with
  | 1 => 1200
  | 2 => 1000
  | 3 => 800
  | 4 => 640
  | 5 => 480
  | _ => 0
  end.

(** What runs in [showSequence] once the [for] loop is left. *)
Definition showSequence_after : M unit :=
  g <- this ;;
  when (isPlaying g && negb (isPaused g)) startPlayerTurn.

(** The [for] loop of [showSequence] from its test at index [i] up to the
    next [await this.delay(interval)], which parks the rest of the loop in
    a timer. *)
Definition showSequence_loop (interval : Z) (i : nat) : M unit :=
  g <- this ;;
  if (i <? List.length (sequence g))%nat then
    if negb (isPlaying g) || isPaused g then showSequence_after
    else
      let c := nth i (sequence g) "" in
      p <- document ;;
      when (colorBtn_exists p c) (emit (Flash c i)) ;;
      setTimeout (TShowResume (S i) interval) interval
  else showSequence_after.

Definition showSequence : M unit :=
  assign (set_isShowingSequence true) ;;
  assign (set_isPlayerTurn false) ;;
  disableColorButtons ;;
  showFeedback WatchTheSequence ;;
  g <- this ;;
  showSequence_loop (interval_of (speed g)) 0.

Definition nextLevel : M unit :=
  assign (set_playerSequence []) ;;
  addToSequence ;;
  showSequence.

Definition startGame : M unit :=
  resetGame ;;
  assign (set_isPlaying true) ;;
  p <- document ;;
  when (has_storage p) (emit RecordGameStart) ;;
  assign (set_gameSession (has_storage p)) ;;
  (if has_gameArea p then ret tt else throw TypeError) ;;
  (if has_board p then ret tt else throw TypeError) ;;
  nextLevel.

Definition handleCorrectColor : M unit :=
  assign (fun g => set_score (score g + 10 * level g) g).

Definition handleIncorrectColor (expectedColor : option color) : M unit :=
  showFeedback (WrongColor expectedColor) ;;
  setTimeout TEndGame 1500.

Definition handleSequenceComplete : M unit :=
  assign (set_isPlayerTurn false) ;;
  disableColorButtons ;;
  assign (fun g => set_score (score g + level g * 50) g) ;;
  g <- this ;;
  showFeedback (LevelComplete (level g)) ;;
  setTimeout TLevelUp 2000.

Definition option_color_eqb (c : color) (e : option color) : bool :=
  match e with
  | Some c' => String.eqb c c'
  | None => false
  end.

Definition handleColorClick (c : color) : M unit :=
  g <- this ;;
  if negb (isPlayerTurn g) || isPaused g then ret tt
  else
    p <- document ;;
    (if colorBtn_exists p c then ret tt else throw TypeError) ;;
    assign (fun g => set_playerSequence (playerSequence g ++ [c]) g) ;;
    g <- this ;;
    let currentIndex := (List.length (playerSequence g) - 1)%nat in
    let expectedColor := nth_error (sequence g) currentIndex in
    if option_color_eqb c expectedColor then
      handleCorrectColor ;;
      g <- this ;;
      when (List.length (playerSequence g) =? List.length (sequence g))%nat
           handleSequenceComplete
    else handleIncorrectColor expectedColor.

Definition endGame : M unit :=
  assign (set_isPlaying false) ;;
  assign (set_isPlayerTurn false) ;;
  disableColorButtons ;;
  g <- this ;;
  p <- document ;;
  when (has_storage p && gameSession g)
       (emit (RecordGameEnd (score g) (level g))) ;;
  showFeedback (GameOver (score g)) ;;
  setTimeout TShowRestartOption 2000.

Definition replaySequence : M unit :=
  g <- this ;;
  if negb (isPlaying g) || isShowingSequence g
     || (List.length (sequence g) =? 0)%nat
  then ret tt
  else assign (set_playerSequence []) ;; showSequence.

Definition togglePause : M unit :=
  g <- this ;;
  if negb (isPlaying g) then ret tt
  else
    assign (fun g => set_isPaused (negb (isPaused g)) g) ;;
    g <- this ;;
    p <- document ;;
    if isPaused g then
      disableColorButtons ;;
      showFeedback GamePaused ;;
      (if has_pauseBtn p then ret tt else throw TypeError)
    else
      when (isPlayerTurn g) enableColorButtons ;;
      clearFeedback ;;
      (if has_pauseBtn p then ret tt else throw TypeError).

Definition setDifficulty (d : string) : M unit := assign (set_difficulty d).
Definition setSpeed (s : Z) : M unit := assign (set_speed s).

Record stats : Type := mkStats {
  stats_level : Z;
  stats_score : Z;
  stats_sequence : list color;
  stats_isPlaying : bool
}.

Definition getCurrentStats (w : world) : stats :=
  let g := gm w in
  mkStats (level g) (score g) (sequence g) (isPlaying g).

(** ** The event loop *)

(** The constructor followed by [loadSettings]: the stored preferences give
    the difficulty and the speed (["medium"] and [3] when nothing is
    stored). *)
Definition new_game (d : string) (s : Z) : game :=
  mkGame [] [] 1 0 false false false false false d s.

Definition new_world (p : page) (d : string) (s : Z) (draws : list Z) : world :=
  mkWorld p (new_game d s) false 0 [] draws [].

(** What can happen next: a click on a control of the page, time passing,
    or the event loop running the timer that is due first. *)
Inductive event : Type :=
| Start
| Replay
| TogglePause
| Click (c : color)
| SetDifficulty (d : string)
| SetSpeed (s : Z)
| Elapse (dt : Z)
| Fire.

Definition run_task (t : task) : M unit :=
  match t with
  | TEndGame => endGame
  | TLevelUp => assign (fun g => set_level (level g + 1) g) ;; nextLevel
  | TShowResume i interval => showSequence_loop interval i
  | TShowRestartOption => ret tt
  end.

(** The least due time among the pending timers. *)
Fixpoint least_due (d : Z) (ts : list (Z * task)) : Z :=
  match ts with
  | [] => d
  | (d', _) :: rest => least_due (Z.min d d') rest
  end.

(** The timer set first among those due at [d], and the timers left. *)
Fixpoint take_due (d : Z) (ts : list (Z * task))
  : option (task * list (Z * task)) :=
  match ts with
  | [] => None
  | (d', t) :: rest =>
      if d' =? d then Some (t, rest)
      else match take_due d rest with
           | Some (t', rest') => Some (t', (d', t) :: rest')
           | None => None
           end
  end.

(** An exception that leaves a handler or a timer callback is reported on
    the console; the object keeps the state it had at the throw. *)
Definition settle (o : outcome unit) : option world :=
  match o with
  | Returns _ w => Some w
  | Throws _ w => Some w
  | Starved => None
  end.

(** One event.  [None] when the event cannot happen: a click on a button
    that is missing or disabled, time running past a pending timer, no
    timer due, or not enough recorded draws. *)
Definition step (e : event) (w : world) : option world :=
  match e with
  | Start => settle (startGame w)
  | Replay => settle (replaySequence w)
  | TogglePause => settle (togglePause w)
  | Click c =>
      if colorBtn_exists (pg w) c && negb (buttonsDisabled w)
      then settle (handleColorClick c w)
      else None
  | SetDifficulty d => settle (setDifficulty d w)
  | SetSpeed s => settle (setSpeed s w)
  | Elapse dt =>
      if (0 <=? dt) && forallb (fun t => now w + dt <=? fst t) (timers w)
      then Some (set_now (now w + dt) w)
      else None
  | Fire =>
      match timers w with
      | [] => None
      | (d0, _) :: _ =>
          let d := least_due d0 (timers w) in
          if d <=? now w then
            match take_due d (timers w) with
            | Some (t, rest) => settle (run_task t (set_timers rest w))
            | None => None
            end
          else None
      end
  end.

Fixpoint run (es : list event) (w : world) : option world :=
  match es with
  | [] => Some w
  | e :: rest =>
      match step e w with
      | Some w' => run rest w'
      | None => None
      end
  end.

(** The states the engine can be in: those some run of events reaches from
    a freshly constructed object. *)
Definition reachable (w : world) : Prop :=
  exists p d s draws es, run es (new_world p d s draws) = Some w.

(** A draw that makes [Math.floor(Math.random() * 4)] equal to [i]. *)
Definition draw_for (i : Z) : Z := i * 2 ^ 51.

(** ** Worked states *)

(** The engine in the player's turn of level 1 with [sequence = ["red"]]:
    a game was started at the default settings and the presentation of the
    one color is over. *)
Definition level1_turn : option world :=
  run [Start; Elapse 800; Fire]
      (new_world game_page "medium" 3 [draw_for 0]).

(** The engine in the player's turn of level 2 with
    [sequence = ["blue"; "red"]] and a score of 60: level 1 was played
    without a mistake. *)
Definition level2_turn : option world :=
  run [Start; Elapse 800; Fire; Click "blue"; Elapse 2000; Fire;
       Elapse 800; Fire; Elapse 800; Fire]
      (new_world game_page "medium" 3 [draw_for 1; draw_for 0; draw_for 2]).

Definition reached (o : option world) : world :=
  match o with
  | Some w => w
  | None => new_world game_page "medium" 3 []
  end.

Definition w_level1 : world := Eval vm_compute in reached level1_turn.
Definition w_level2 : world := Eval vm_compute in reached level2_turn.

(** The player's turn of level 1 after the pause button was pressed. *)
Definition w_paused : world :=
  Eval vm_compute in reached (run [TogglePause] w_level1).

(** ** Notions used by the statements *)

(** [m] keeps [P]: whatever way [m] ends, [P] holds again. *)
Definition keeps {A : Type} (P : world -> Prop) (m : M A) : Prop :=
  forall w, P w ->
    match m w with
    | Returns _ w' => P w'
    | Throws _ w' => P w'
    | Starved => True
    end.

(** A property of the object alone, read on a world. *)
Definition on_game (Q : game -> Prop) (w : world) : Prop := Q (gm w).

(** The selection the specification gives for ["medium"]: uniform over the
    four colors, whatever the sequence holds (repeats allowed).  One draw
    is used; [None] when no draw is left. *)
Definition uniform_selection (draws : list Z) : option (color * list Z) :=
  match draws with
  | [] => None
  | k :: rest =>
      Some (nth (Z.to_nat ((k mod 2 ^ 53) * 4 / 2 ^ 53))
                ["red"; "blue"; "green"; "yellow"] "", rest)
  end.

Definition selected (w : world) (s : option (color * list Z)) : outcome color :=
  match s with
  | None => Starved
  | Some (c, rest) => Returns c (set_rng rest w)
  end.

(** The outcome of a method on a world whose difficulty was changed, read
    back at another difficulty. *)
Definition at_difficulty (d : string) (o : outcome unit) : outcome unit :=
  match o with
  | Returns a w => Returns a (set_gm (set_difficulty d (gm w)) w)
  | Throws e w => Throws e (set_gm (set_difficulty d (gm w)) w)
  | Starved => Starved
  end.

(** No two neighbours of the list are equal. *)
Definition adjacent_distinct (l : list color) : Prop :=
  forall i a b, nth_error l i = Some a -> nth_error l (S i) = Some b -> a <> b.

(** The invariant: the difficulty is ["easy"] and no color of the sequence
    repeats its predecessor. *)
Definition easy_game (g : game) : Prop :=
  difficulty g = "easy" /\ adjacent_distinct (sequence g).

(** The events that leave the difficulty at ["easy"]. *)
Definition stays_easy (e : event) : Prop :=
  match e with
  | SetDifficulty d => d = "easy"
  | _ => True
  end.

(** The clicks of a whole answer, one after the other. *)
Fixpoint clicks (cs : list color) : M unit :=
  match cs with
  | [] => ret tt
  | c :: rest => handleColorClick c ;; clicks rest
  end.

(** A game at ["easy"] in which [Math.random()] gives red, then red twice
    more (both thrown away), then green. *)
Definition easy_level2 : option world :=
  run [Start; Elapse 800; Fire; Click "red"; Elapse 2000; Fire]
      (new_world game_page "easy" 3
                 [draw_for 0; draw_for 0; draw_for 0; draw_for 2]).

Definition w_easy2 : world := Eval vm_compute in reached easy_level2.

(** The flags never contradict each other, and the buttons follow them. *)
Definition flags_consistent (w : world) : Prop :=
  (isShowingSequence (gm w) = true -> isPlayerTurn (gm w) = false) /\
  (isPlayerTurn (gm w) = true -> isPlaying (gm w) = true) /\
  (isPlayerTurn (gm w) = true -> isPaused (gm w) = false ->
   buttonsDisabled w = false) /\
  (isPaused (gm w) = true -> buttonsDisabled w = true) /\
  (isShowingSequence (gm w) = true -> buttonsDisabled w = true).

(** What the sequence, the level and the score hold. *)
Definition sound_game (g : game) : Prop :=
  Forall (fun c => In c colors) (sequence g) /\
  1 <= level g /\ 0 <= score g /\ score g mod 10 = 0.

(** On a page with the game area and the board, the level is the number of
    colors in the sequence. *)
Definition level_length (w : world) : Prop :=
  has_gameArea (pg w) = true /\
  has_board (pg w) = true /\
  level (gm w) = Z.of_nat (List.length (sequence (gm w))).

(** The pending timers are those of [x], in order, followed by others. *)
Definition extends_timers (x : list (Z * task)) (w : world) : Prop :=
  exists l, timers w = x ++ l.

Definition task_is_endGame (t : task) : bool :=
  match t with
  | TEndGame => true
  | _ => false
  end.

(** The flags are consistent and, unless a mismatch has scheduled [endGame]
    or the game is over, what the player has submitted is the beginning of
    the sequence. *)
Definition healthy (w : world) : Prop :=
  flags_consistent w /\
  ((exists rest, sequence (gm w) = playerSequence (gm w) ++ rest) \/
   In TEndGame (map snd (timers w)) \/
   isPlaying (gm w) = false).

(** [n] times: the interval passes, then the due timer runs. *)
Fixpoint rounds (n : nat) (iv : Z) : list event :=
  match n with
  | O => []
  | S n' => Elapse iv :: Fire :: rounds n' iv
  end.

(** The flashes of the colors [cs], shown from position [i] on, on the
    buttons the page has. *)
Fixpoint flashes (p : page) (cs : list color) (i : nat) : list effect :=
  match cs with
  | [] => []
  | c :: rest =>
      (if colorBtn_exists p c then [Flash c i] else [])
      ++ flashes p rest (S i)
  end.

(** The score is at least [s0], the level at least [l0] (and 1), and the
    sequence starts with [q0]. *)
Definition grown (s0 l0 : Z) (q0 : list color) (w : world) : Prop :=
  1 <= level (gm w) /\
  s0 <= score (gm w) /\
  l0 <= level (gm w) /\
  exists l, sequence (gm w) = q0 ++ l.

(** A game at the default settings whose first presentation is under way. *)
Definition w_showing : world :=
  Eval vm_compute in
    reached (run [Start] (new_world game_page "medium" 3 [draw_for 0])).

(** A game at the default settings that a first wrong color has ended. *)
Definition w_over : world :=
  Eval vm_compute in
    reached (run [Start; Elapse 800; Fire; Click "blue"; Elapse 1500; Fire]
                 (new_world game_page "medium" 3 [draw_for 0])).

(** ** The storage manager ([src/scripts/storage.js]) *)

Module Storage.

(** [this.data.progress]; the counters are JavaScript numbers that hold
    integers, the time of the last game is [null] until one is played. *)
Record progress : Type := mkProgress {
  totalPlayTime : Z;
  gamesPlayed : Z;
  lastPlayed : option Z;
  streak : Z;
  longestStreak : Z
}.

(** [defaultData.progress]. *)
Definition defaultProgress : progress := mkProgress 0 0 None 0 0.

Definition updateStreak (completed : bool) (p : progress) : progress :=
  if completed then
    let s := streak p + 1 in
    if longestStreak p <? s
    then mkProgress (totalPlayTime p) (gamesPlayed p) (lastPlayed p) s s
    else mkProgress (totalPlayTime p) (gamesPlayed p) (lastPlayed p) s
                    (longestStreak p)
  else mkProgress (totalPlayTime p) (gamesPlayed p) (lastPlayed p) 0
                  (longestStreak p).

End Storage.

(** ** Reasoning about methods *)

Lemma level1_turn_reached : level1_turn = Some w_level1.
Proof. reflexivity. Qed.

Lemma level2_turn_reached : level2_turn = Some w_level2.
Proof. reflexivity. Qed.

Lemma w_paused_reached :
  run [Start; Elapse 800; Fire; TogglePause]
      (new_world game_page "medium" 3 [draw_for 0]) = Some w_paused.
Proof. reflexivity. Qed.


Lemma keeps_ret {A : Type} (P : world -> Prop) (a : A) : keeps P (ret a).
Proof. intros w H. exact H. Qed.

Lemma keeps_throw {A : Type} (P : world -> Prop) (e : exn) :
  keeps P (@throw A e).
Proof. intros w H. exact H. Qed.

Lemma keeps_bind {A B : Type} (P : world -> Prop) (m : M A) (k : A -> M B) :
  keeps P m -> (forall a, keeps P (k a)) -> keeps P (bind m k).
Proof.
  intros Hm Hk w H. unfold bind. specialize (Hm w H).
  destruct (m w) as [a w'| e w' |]; auto. apply Hk. exact Hm.
Qed.

Lemma keeps_if {A : Type} (P : world -> Prop) (b : bool) (m1 m2 : M A) :
  keeps P m1 -> keeps P m2 -> keeps P (if b then m1 else m2).
Proof. destruct b; auto. Qed.

Lemma keeps_when (P : world -> Prop) (b : bool) (m : M unit) :
  keeps P m -> keeps P (when b m).
Proof. intros H. unfold when. apply keeps_if; auto using keeps_ret. Qed.

Lemma keeps_this (P : world -> Prop) : keeps P this.
Proof. intros w H. exact H. Qed.

Lemma keeps_document (P : world -> Prop) : keeps P document.
Proof. intros w H. exact H. Qed.

(** Symbolic execution of a method on a world given field by field. *)
Ltac exec1 :=
  cbv beta iota zeta delta
    [startGame resetGame nextLevel addToSequence showSequence
     showSequence_loop showSequence_after startPlayerTurn handleColorClick
     handleCorrectColor handleIncorrectColor handleSequenceComplete endGame
     replaySequence togglePause setDifficulty setSpeed randomColor
     random_index easyColor run_task
     enableColorButtons disableColorButtons clearFeedback showFeedback
     bind ret throw this assign document emit when setTimeout
     set_sequence set_playerSequence set_level set_score set_isPlaying
     set_isShowingSequence set_isPlayerTurn set_isPaused set_gameSession
     set_difficulty set_speed
     set_gm set_buttonsDisabled set_now set_timers set_rng set_log
     sequence playerSequence level score isPlaying isShowingSequence
     isPlayerTurn isPaused gameSession difficulty speed
     pg gm buttonsDisabled now timers rng log
     has_gameArea has_board has_pauseBtn has_feedback has_storage
     buttonColors andb orb negb];
  cbn [app List.length Nat.ltb Nat.leb Nat.eqb Nat.sub nth nth_error].

Ltac exec := repeat (progress exec1).

(** ** Submissions that are not accepted *)

(** C8.  Whenever the engine is not in the player's turn, or is paused,
    [handleColorClick] returns at once for every color, correct or not, and
    the world it returns is the world it was given. *)
Theorem handleColorClick_ignored (w : world) (c : color) :
  isPlayerTurn (gm w) = false \/ isPaused (gm w) = true ->
  handleColorClick c w = Returns tt w.
Proof.
  intros H. unfold handleColorClick, bind, this.
  destruct H as [H | H]; rewrite H; simpl.
  - reflexivity.
  - rewrite orb_true_r. reflexivity.
Qed.

Lemma handleColorClick_ignored_witness :
  isPaused (gm w_paused) = true /\
  handleColorClick "red" w_paused = Returns tt w_paused.
Proof.
  split.
  - reflexivity.
  - apply (handleColorClick_ignored w_paused "red"). right. reflexivity.
Defined.


(** ** Ending the game *)

(** C10.  [endGame] returns, and of the object's fields it writes only
    [isPlaying] and [isPlayerTurn]: score, level, sequence and player
    sequence are as before, so [getCurrentStats] afterwards gives the
    level, the score and the whole sequence of the game that ended. *)
Theorem endGame_keeps_result (w : world) :
  exists w',
    endGame w = Returns tt w' /\
    gm w' = set_isPlayerTurn false (set_isPlaying false (gm w)) /\
    score (gm w') = score (gm w) /\
    level (gm w') = level (gm w) /\
    sequence (gm w') = sequence (gm w) /\
    playerSequence (gm w') = playerSequence (gm w) /\
    getCurrentStats w' =
    mkStats (level (gm w)) (score (gm w)) (sequence (gm w)) false.
Proof.
  destruct w as [p g bd n tm r lg]. destruct p as [ga bo pb fb st bc].
  unfold endGame, bind, this, document, assign, disableColorButtons,
    showFeedback, emit, setTimeout, when, ret.
  simpl. destruct (st && gameSession g), fb; simpl;
    eexists; repeat split.
Qed.

(** ** Replay *)

(** C9.  [replaySequence] does nothing unless [isPlaying] is set and
    [isShowingSequence] is not (nor when there is no sequence yet).  When it
    runs it empties the player sequence and shows the sequence again:
    [isShowingSequence] is set, [isPlayerTurn] is not, sequence, level and
    score are what they were, and (unless the game is paused) the
    presentation is under way from the first color of that sequence. *)
Theorem replaySequence_spec (w : world) :
  (isPlaying (gm w) = false \/ isShowingSequence (gm w) = true ->
   replaySequence w = Returns tt w) /\
  (sequence (gm w) = [] -> replaySequence w = Returns tt w) /\
  (isPlaying (gm w) = true -> isShowingSequence (gm w) = false ->
   sequence (gm w) <> [] ->
   exists w',
     replaySequence w = Returns tt w' /\
     playerSequence (gm w') = [] /\
     isShowingSequence (gm w') = true /\
     isPlayerTurn (gm w') = false /\
     sequence (gm w') = sequence (gm w) /\
     level (gm w') = level (gm w) /\
     score (gm w') = score (gm w) /\
     (isPaused (gm w) = false ->
      timers w' =
      timers w ++ [(now w + interval_of (speed (gm w)),
                    TShowResume 1 (interval_of (speed (gm w))))])).
Proof.
  unfold replaySequence, bind, this.
  split; [|split].
  - intros [H | H]; rewrite H; simpl; [reflexivity|].
    rewrite orb_true_r. reflexivity.
  - intros H. rewrite H. simpl. rewrite orb_true_r. reflexivity.
  - intros Hp Hs Hq.
    destruct w as [p g bd n tm r lg]. destruct p as [ga bo pb fb st bc].
    destruct g as [sq ps lv sc ip iss ipt ipa gs df sp]. simpl in *.
    subst ip iss.
    destruct sq as [|c0 sq]; [contradiction|]. simpl.
    unfold showSequence, showSequence_loop, showSequence_after, bind, this,
      document, assign, disableColorButtons, showFeedback, emit, setTimeout,
      when, ret. simpl.
    destruct fb, ipa; simpl;
      try (destruct (colorBtn_exists _ c0)); simpl;
      eexists; repeat split; intros; try discriminate; reflexivity.
Qed.

Lemma replaySequence_spec_witness :
  exists w',
    replaySequence w_level2 = Returns tt w' /\
    playerSequence (gm w') = [] /\
    isShowingSequence (gm w') = true /\
    isPlayerTurn (gm w') = false /\
    sequence (gm w') = sequence (gm w_level2) /\
    level (gm w') = level (gm w_level2) /\
    score (gm w') = score (gm w_level2) /\
    (isPaused (gm w_level2) = false ->
     timers w' =
     timers w_level2 ++ [(now w_level2 + interval_of (speed (gm w_level2)),
                          TShowResume 1 (interval_of (speed (gm w_level2))))]).
Proof.
  apply (replaySequence_spec w_level2).
  - reflexivity.
  - reflexivity.
  - discriminate.
Defined.

(** ** Starting a game *)

Lemma nextColor_first (d : string) (w : world) (k : Z) (rest : list Z) :
  sequence (gm w) = [] ->
  rng w = k :: rest ->
  nextColor d w =
  Returns (nth (index_of_draw k (List.length colors)) colors "")
          (set_rng rest w).
Proof.
  intros Hs Hr. unfold nextColor.
  assert (Hrand : randomColor w =
                  Returns (nth (index_of_draw k (List.length colors)) colors "")
                          (set_rng rest w)).
  { unfold randomColor, bind, random_index, ret. rewrite Hr. reflexivity. }
  destruct (String.eqb d "easy").
  - unfold easyColor. rewrite Hs, Hr. reflexivity.
  - destruct (String.eqb d "medium"); [exact Hrand|].
    destruct (String.eqb d "hard"); [exact Hrand|].
    destruct (String.eqb d "adaptive"); [|exact Hrand].
    exact Hrand.
Qed.

(** C5.  From every state, a game in progress included, [startGame] on a
    page that has the game area and the board, with [Math.random()]
    answering, returns without throwing; right afterwards the sequence has
    one color, the player sequence is empty, the level is 1 and the score
    is 0 (and the game is playing, unpaused, showing the sequence). *)
Theorem startGame_resets (w : world) :
  has_gameArea (pg w) = true ->
  has_board (pg w) = true ->
  rng w <> [] ->
  exists w',
    startGame w = Returns tt w' /\
    List.length (sequence (gm w')) = 1%nat /\
    List.length (playerSequence (gm w')) = 0%nat /\
    level (gm w') = 1 /\
    score (gm w') = 0 /\
    isPlaying (gm w') = true /\
    isPaused (gm w') = false /\
    isShowingSequence (gm w') = true /\
    isPlayerTurn (gm w') = false.
Proof.
  intros Hga Hbo Hr.
  destruct w as [p g bd n tm r lg]. destruct p as [ga bo pb fb st bc].
  destruct g as [sq ps lv sc ip iss ipt ipa gs df sp].
  simpl in *. subst ga bo. destruct r as [|k rest]; [contradiction|].
  destruct fb, st.
  all: exec.
  all: erewrite nextColor_first; [| reflexivity | reflexivity].
  all: exec.
  all: match goal with
       | |- context [colorBtn_exists ?p ?c] => destruct (colorBtn_exists p c)
       end.
  all: exec.
  all: simpl; eexists; repeat split.
Qed.

Lemma startGame_resets_witness :
  exists w',
    startGame w_level2 = Returns tt w' /\
    List.length (sequence (gm w')) = 1%nat /\
    List.length (playerSequence (gm w')) = 0%nat /\
    level (gm w') = 1 /\
    score (gm w') = 0 /\
    isPlaying (gm w') = true /\
    isPaused (gm w') = false /\
    isShowingSequence (gm w') = true /\
    isPlayerTurn (gm w') = false.
Proof.
  apply (startGame_resets w_level2).
  - reflexivity.
  - reflexivity.
  - discriminate.
Defined.

(** ** The adaptive difficulty *)

Lemma error_rate_not_high : Qgt_bool getRecentErrorRate (1 # 2)%Q = false.
Proof. reflexivity. Qed.

Lemma error_rate_not_low : Qlt_bool getRecentErrorRate (1 # 5)%Q = false.
Proof. reflexivity. Qed.

Lemma getAdaptiveColor_random (w : world) : getAdaptiveColor w = randomColor w.
Proof.
  unfold getAdaptiveColor.
  rewrite error_rate_not_high, error_rate_not_low. reflexivity.
Qed.

Lemma randomColor_uniform (w : world) :
  randomColor w = selected w (uniform_selection (rng w)).
Proof.
  unfold randomColor, bind, random_index, ret, selected, uniform_selection.
  destruct (rng w) as [|k rest]; reflexivity.
Qed.

(** C7.  With the error rate fixed at 0.3, the color chosen under
    ["adaptive"] is, for every state of the sequence and every future of
    [Math.random()], the color chosen under ["medium"], namely the uniform
    choice among the four colors with repeats allowed; and [addToSequence]
    run under the one difficulty leaves what it leaves under the other. *)
Theorem adaptive_is_medium (w : world) :
  nextColor "adaptive" w = nextColor "medium" w /\
  nextColor "adaptive" w = selected w (uniform_selection (rng w)) /\
  addToSequence (set_gm (set_difficulty "adaptive" (gm w)) w) =
  at_difficulty "adaptive"
    (addToSequence (set_gm (set_difficulty "medium" (gm w)) w)).
Proof.
  assert (Ha : nextColor "adaptive" = getAdaptiveColor) by reflexivity.
  assert (Hm : nextColor "medium" = randomColor) by reflexivity.
  split; [|split].
  - rewrite Ha, Hm. apply getAdaptiveColor_random.
  - rewrite Ha, getAdaptiveColor_random. apply randomColor_uniform.
  - unfold addToSequence, bind, this. cbn [difficulty gm set_gm set_difficulty].
    rewrite Ha, Hm, getAdaptiveColor_random.
    unfold randomColor, bind, random_index, ret, assign, at_difficulty.
    destruct w as [p g bd n tm r lg].
    destruct g as [sq ps lv sc ip iss ipt ipa gs df sp].
    destruct r as [|k rest]; reflexivity.
Qed.

(** ** The easy difficulty *)

Lemma index_of_draw_lt (k : Z) (n : nat) :
  (0 < n)%nat -> (index_of_draw k n < n)%nat.
Proof.
  intros Hn. unfold index_of_draw.
  assert (Hk : 0 <= k mod 2 ^ 53 < 2 ^ 53) by (apply Z.mod_pos_bound; lia).
  assert (Hq : 0 <= (k mod 2 ^ 53) * Z.of_nat n / 2 ^ 53 < Z.of_nat n).
  { split.
    - apply Z.div_pos; nia.
    - apply Z.div_lt_upper_bound; nia. }
  lia.
Qed.

Lemma drawn_color_in (k : Z) :
  In (nth (index_of_draw k (List.length colors)) colors "") colors.
Proof.
  apply nth_In. apply index_of_draw_lt. simpl. lia.
Qed.

Lemma nth_error_last (l : list color) (d : color) :
  l <> [] -> nth_error l (List.length l - 1) = Some (last l d).
Proof.
  induction l as [|a l IH]; intros H; [contradiction|].
  destruct l as [|b l]; [reflexivity|].
  replace (List.length (a :: b :: l) - 1)%nat
    with (S (List.length (b :: l) - 1)) by (simpl; lia).
  change (last (a :: b :: l) d) with (last (b :: l) d).
  cbn [nth_error]. apply IH. discriminate.
Qed.

Lemma adjacent_distinct_nil : adjacent_distinct [].
Proof. intros i a b H. destruct i; discriminate H. Qed.

Lemma adjacent_distinct_snoc (l : list color) (c : color) :
  adjacent_distinct l ->
  (l <> [] -> c <> last l "") ->
  adjacent_distinct (l ++ [c]).
Proof.
  intros Hl Hc i a b Ha Hb.
  destruct (Nat.lt_ge_cases (S i) (List.length l)) as [Hlt | Hge].
  - rewrite nth_error_app1 in Ha by lia. rewrite nth_error_app1 in Hb by lia.
    exact (Hl i a b Ha Hb).
  - assert (Hi : S i = List.length l).
    { assert (Hsome : nth_error (l ++ [c]) (S i) <> None) by congruence.
      apply nth_error_Some in Hsome. rewrite length_app in Hsome.
      simpl in Hsome. lia. }
    assert (Hne : l <> []) by (intros E; subst l; discriminate Hi).
    rewrite nth_error_app1 in Ha by lia.
    rewrite nth_error_app2 in Hb by lia.
    rewrite Hi, Nat.sub_diag in Hb. simpl in Hb. injection Hb as Hb.
    replace i with (List.length l - 1)%nat in Ha by lia.
    rewrite (nth_error_last l "" Hne) in Ha. injection Ha as Ha.
    subst a b. intros E. apply (Hc Hne). symmetry. exact E.
Qed.

(** What the rejection loop returns is one of the four colors, and not the
    last color of a non-empty sequence. *)
Lemma easy_loop_sound (seq : list color) (tape rest : list Z) (c : color) :
  easy_loop seq tape = Some (c, rest) ->
  In c colors /\ (seq <> [] -> c <> last seq "").
Proof.
  induction tape as [|k tape IH]; intros H; [discriminate H|].
  cbn [easy_loop] in H.
  destruct ((0 <? List.length seq)%nat
            && String.eqb (nth (index_of_draw k (List.length colors)) colors "")
                          (last seq "")) eqn:E.
  - apply IH. exact H.
  - injection H as Hc Hrest. subst c. split; [apply drawn_color_in|].
    intros Hne E'. apply andb_false_iff in E. destruct E as [E | E].
    + apply Nat.ltb_ge in E. destruct seq; [contradiction | simpl in E; lia].
    + apply String.eqb_neq in E. apply E. exact E'.
Qed.

(** The rejection loop ends as soon as a draw is acceptable. *)
Lemma easy_loop_returns (seq : list color) (tape : list Z) :
  (exists k, In k tape /\
     (seq = [] \/
      nth (index_of_draw k (List.length colors)) colors "" <> last seq "")) ->
  exists c rest, easy_loop seq tape = Some (c, rest).
Proof.
  intros [k [Hin Hok]]. induction tape as [|k' tape IH]; [contradiction|].
  cbn [easy_loop].
  destruct ((0 <? List.length seq)%nat
            && String.eqb (nth (index_of_draw k' (List.length colors)) colors "")
                          (last seq "")) eqn:E.
  - destruct Hin as [Hin | Hin]; [|apply IH; exact Hin].
    subst k'. apply andb_true_iff in E. destruct E as [E1 E2].
    destruct Hok as [Hok | Hok].
    + subst seq. discriminate E1.
    + apply String.eqb_eq in E2. contradiction.
  - eexists. eexists. reflexivity.
Qed.

Lemma addToSequence_easy (w : world) :
  difficulty (gm w) = "easy" ->
  addToSequence w =
  match easy_loop (sequence (gm w)) (rng w) with
  | None => Starved
  | Some (c, rest) =>
      Returns tt (set_gm (set_sequence (sequence (gm w) ++ [c]) (gm w))
                         (set_rng rest w))
  end.
Proof.
  intros Hd. unfold addToSequence, bind, this. rewrite Hd.
  change (nextColor "easy") with easyColor. unfold easyColor.
  destruct (easy_loop (sequence (gm w)) (rng w)) as [[c rest]|]; reflexivity.
Qed.

(** *** The sequence of a game played at ["easy"] throughout *)

Section GameInvariant.

(** A property of the object alone. *)
Variable Q : game -> Prop.

Lemma keeps_assign (f : game -> game) :
  (forall g, Q g -> Q (f g)) -> keeps (on_game Q) (assign f).
Proof. intros Hf w H. apply Hf. exact H. Qed.

Lemma keeps_emit (e : effect) : keeps (on_game Q) (emit e).
Proof. intros w H. exact H. Qed.

Lemma keeps_setTimeout (t : task) (d : Z) : keeps (on_game Q) (setTimeout t d).
Proof. intros w H. exact H. Qed.

Lemma keeps_enableColorButtons : keeps (on_game Q) enableColorButtons.
Proof. intros w H. exact H. Qed.

Lemma keeps_disableColorButtons : keeps (on_game Q) disableColorButtons.
Proof. intros w H. exact H. Qed.

Lemma keeps_random_index (n : nat) : keeps (on_game Q) (random_index n).
Proof.
  intros w H. unfold random_index. destruct (rng w); [exact I | exact H].
Qed.

End GameInvariant.

Create HintDb keeps_db.

#[local] Hint Resolve keeps_ret keeps_throw keeps_this keeps_document
  keeps_emit keeps_setTimeout keeps_enableColorButtons
  keeps_disableColorButtons keeps_random_index keeps_when : keeps_db.
#[local] Hint Extern 2 (keeps _ (bind _ _)) =>
  apply keeps_bind; [| intro] : keeps_db.
#[local] Hint Extern 2 (keeps _ (if _ then _ else _)) =>
  apply keeps_if : keeps_db.
#[local] Hint Extern 3 (keeps (on_game easy_game) (assign _)) =>
  apply keeps_assign; intros [? ? ? ? ? ? ? ? ? ? ?] ?; assumption
  : keeps_db.

Lemma keeps_easy_showFeedback (m : feedback) :
  keeps (on_game easy_game) (showFeedback m).
Proof. unfold showFeedback. auto with keeps_db. Qed.

Lemma keeps_easy_clearFeedback : keeps (on_game easy_game) clearFeedback.
Proof. unfold clearFeedback. auto with keeps_db. Qed.

#[local] Hint Resolve keeps_easy_showFeedback keeps_easy_clearFeedback
  : keeps_db.

Lemma keeps_easy_startPlayerTurn : keeps (on_game easy_game) startPlayerTurn.
Proof. unfold startPlayerTurn. auto 10 with keeps_db. Qed.

#[local] Hint Resolve keeps_easy_startPlayerTurn : keeps_db.

Lemma keeps_easy_showSequence_after :
  keeps (on_game easy_game) showSequence_after.
Proof. unfold showSequence_after. auto 10 with keeps_db. Qed.

#[local] Hint Resolve keeps_easy_showSequence_after : keeps_db.

Lemma keeps_easy_showSequence_loop (iv : Z) (i : nat) :
  keeps (on_game easy_game) (showSequence_loop iv i).
Proof. unfold showSequence_loop. auto 10 with keeps_db. Qed.

#[local] Hint Resolve keeps_easy_showSequence_loop : keeps_db.

Lemma keeps_easy_showSequence : keeps (on_game easy_game) showSequence.
Proof. unfold showSequence. auto 12 with keeps_db. Qed.

#[local] Hint Resolve keeps_easy_showSequence : keeps_db.

Lemma keeps_easy_addToSequence : keeps (on_game easy_game) addToSequence.
Proof.
  intros w [Hd Hs]. rewrite (addToSequence_easy w Hd).
  destruct (easy_loop (sequence (gm w)) (rng w)) as [[c rest]|] eqn:E;
    [|exact I].
  apply easy_loop_sound in E. destruct E as [_ Hc].
  split; [exact Hd|]. apply adjacent_distinct_snoc; assumption.
Qed.

#[local] Hint Resolve keeps_easy_addToSequence : keeps_db.

Lemma keeps_easy_nextLevel : keeps (on_game easy_game) nextLevel.
Proof. unfold nextLevel. auto 10 with keeps_db. Qed.

#[local] Hint Resolve keeps_easy_nextLevel : keeps_db.

Lemma keeps_easy_resetGame : keeps (on_game easy_game) resetGame.
Proof.
  unfold resetGame. apply keeps_bind; [|intro; auto 20 with keeps_db].
  apply keeps_assign. intros g [Hd _]. split; [exact Hd|].
  apply adjacent_distinct_nil.
Qed.

#[local] Hint Resolve keeps_easy_resetGame : keeps_db.

Lemma keeps_easy_startGame : keeps (on_game easy_game) startGame.
Proof. unfold startGame. auto 20 with keeps_db. Qed.

Lemma keeps_easy_handleColorClick (c : color) :
  keeps (on_game easy_game) (handleColorClick c).
Proof.
  unfold handleColorClick, handleCorrectColor, handleIncorrectColor,
    handleSequenceComplete.
  auto 20 with keeps_db.
Qed.

Lemma keeps_easy_endGame : keeps (on_game easy_game) endGame.
Proof. unfold endGame. auto 20 with keeps_db. Qed.

Lemma keeps_easy_replaySequence : keeps (on_game easy_game) replaySequence.
Proof. unfold replaySequence. auto 10 with keeps_db. Qed.

Lemma keeps_easy_togglePause : keeps (on_game easy_game) togglePause.
Proof. unfold togglePause. auto 20 with keeps_db. Qed.

Lemma keeps_easy_setSpeed (s : Z) : keeps (on_game easy_game) (setSpeed s).
Proof. unfold setSpeed. auto with keeps_db. Qed.

Lemma keeps_easy_run_task (t : task) : keeps (on_game easy_game) (run_task t).
Proof.
  destruct t; simpl; auto using keeps_easy_endGame with keeps_db.
Qed.

Lemma keeps_settle (P : world -> Prop) (m : M unit) (w w' : world) :
  keeps P m -> P w -> settle (m w) = Some w' -> P w'.
Proof.
  intros Hm Hw H. specialize (Hm w Hw).
  destruct (m w) as [a w1 | e w1 |]; simpl in H; try discriminate H;
    injection H as H; subst w1; exact Hm.
Qed.

Lemma step_easy (e : event) (w w' : world) :
  stays_easy e -> on_game easy_game w -> step e w = Some w' ->
  on_game easy_game w'.
Proof.
  intros He Hw H. destruct e; simpl in H.
  - exact (keeps_settle _ _ _ _ keeps_easy_startGame Hw H).
  - exact (keeps_settle _ _ _ _ keeps_easy_replaySequence Hw H).
  - exact (keeps_settle _ _ _ _ keeps_easy_togglePause Hw H).
  - destruct (colorBtn_exists (pg w) c && negb (buttonsDisabled w));
      [|discriminate H].
    exact (keeps_settle _ _ _ _ (keeps_easy_handleColorClick c) Hw H).
  - simpl in He. subst d. injection H as H. subst w'.
    destruct Hw as [_ Hs]. split; [reflexivity | exact Hs].
  - exact (keeps_settle _ _ _ _ (keeps_easy_setSpeed s) Hw H).
  - destruct ((0 <=? dt) && forallb (fun t => now w + dt <=? fst t) (timers w));
      [|discriminate H].
    injection H as H. subst w'. exact Hw.
  - destruct (timers w) as [|[d0 t0] ts] eqn:Et; [discriminate H|].
    destruct (least_due d0 ((d0, t0) :: ts) <=? now w); [|discriminate H].
    destruct (take_due (least_due d0 ((d0, t0) :: ts)) ((d0, t0) :: ts))
      as [[t rest]|]; [|discriminate H].
    exact (keeps_settle _ _ (set_timers rest w) _ (keeps_easy_run_task t) Hw H).
Qed.

Lemma run_easy (es : list event) (w w' : world) :
  Forall stays_easy es -> on_game easy_game w -> run es w = Some w' ->
  on_game easy_game w'.
Proof.
  revert w. induction es as [|e es IH]; intros w Hes Hw H; simpl in H.
  - injection H as H. subst w'. exact Hw.
  - destruct (step e w) as [w1|] eqn:E; [|discriminate H].
    inversion Hes as [|e' es' He Hes']; subst.
    apply (IH w1 Hes'); [|exact H].
    exact (step_easy e w w1 He Hw E).
Qed.

(** C6.  At difficulty ["easy"]: (1) a call of [addToSequence] returns as
    soon as one of the coming draws is acceptable (any draw when the
    sequence is empty, a draw other than the last color otherwise);
    (2) whenever it returns it has appended one of the four colors, and
    that color differs from the element that was last, so a sequence
    without immediate repeats stays so; (3) in every game played at
    ["easy"] from the start, whatever the events, no element of the
    sequence equals its predecessor. *)
Theorem easy_no_immediate_repeat :
  (forall w, difficulty (gm w) = "easy" ->
     (exists k, In k (rng w) /\
        (sequence (gm w) = [] \/
         nth (index_of_draw k (List.length colors)) colors ""
         <> last (sequence (gm w)) "")) ->
     exists w', addToSequence w = Returns tt w') /\
  (forall w w', difficulty (gm w) = "easy" ->
     addToSequence w = Returns tt w' ->
     exists c : color,
       sequence (gm w') = (sequence (gm w) ++ [c])%list /\
       In c colors /\
       (sequence (gm w) <> [] -> c <> last (sequence (gm w)) "") /\
       (adjacent_distinct (sequence (gm w)) ->
        adjacent_distinct (sequence (gm w')))) /\
  (forall p s draws es w,
     Forall stays_easy es ->
     run es (new_world p "easy" s draws) = Some w ->
     forall i a b,
       nth_error (sequence (gm w)) i = Some a ->
       nth_error (sequence (gm w)) (S i) = Some b ->
       a <> b).
Proof.
  split; [|split].
  - intros w Hd Hk. rewrite (addToSequence_easy w Hd).
    destruct (easy_loop_returns _ _ Hk) as (c & rest & E). rewrite E.
    eexists. reflexivity.
  - intros w w' Hd H. rewrite (addToSequence_easy w Hd) in H.
    destruct (easy_loop (sequence (gm w)) (rng w)) as [[c rest]|] eqn:E;
      [|discriminate H].
    injection H as H. subst w'. apply easy_loop_sound in E.
    destruct E as [Hin Hc]. exists c. simpl.
    repeat split; try assumption.
    intros Hs. apply adjacent_distinct_snoc; assumption.
  - intros p s draws es w Hes H.
    assert (Hw : on_game easy_game w).
    { apply (run_easy es (new_world p "easy" s draws) w Hes); [|exact H].
      split; [reflexivity | apply adjacent_distinct_nil]. }
    destruct Hw as [_ Hs]. exact Hs.
Qed.

Lemma easy_no_immediate_repeat_witness :
  sequence (gm w_easy2) = ["red"; "green"] /\ "red" <> "green".
Proof.
  split; [reflexivity|].
  destruct easy_no_immediate_repeat as (_ & _ & H).
  assert (Hes : Forall stays_easy
                  [Start; Elapse 800; Fire; Click "red"; Elapse 2000; Fire])
    by (repeat constructor).
  assert (Hrun : run [Start; Elapse 800; Fire; Click "red"; Elapse 2000; Fire]
                     (new_world game_page "easy" 3
                        [draw_for 0; draw_for 0; draw_for 0; draw_for 2])
                 = Some w_easy2)
    by (vm_compute; reflexivity).
  exact (H _ _ _ _ _ Hes Hrun 0%nat "red" "green" eq_refl eq_refl).
Defined.

(** ** Scoring *)

Lemma expected_after_push (sq ps : list color) (c : color) :
  nth_error sq (List.length (ps ++ [c]) - 1) = nth_error sq (List.length ps).
Proof.
  rewrite length_app. simpl. f_equal. lia.
Qed.

(** A correct submission that does not complete the sequence. *)
Lemma handleColorClick_correct (w : world) (c : color) :
  isPlayerTurn (gm w) = true ->
  isPaused (gm w) = false ->
  colorBtn_exists (pg w) c = true ->
  nth_error (sequence (gm w)) (List.length (playerSequence (gm w))) = Some c ->
  S (List.length (playerSequence (gm w))) <> List.length (sequence (gm w)) ->
  handleColorClick c w =
  Returns tt
    (set_gm (set_score (score (gm w) + 10 * level (gm w))
               (set_playerSequence (playerSequence (gm w) ++ [c]) (gm w)))
            w).
Proof.
  intros Ht Hp Hb He Hn.
  destruct w as [p g bd n tm r lg].
  destruct g as [sq ps lv sc ip iss ipt ipa gs df sp].
  cbn [gm pg isPlayerTurn isPaused sequence playerSequence] in *.
  subst ipt ipa. exec. rewrite Hb. exec.
  rewrite expected_after_push, He. cbn [option_color_eqb].
  rewrite String.eqb_refl. exec.
  replace (List.length (ps ++ [c]) =? List.length sq)%nat with false.
  - reflexivity.
  - symmetry. apply Nat.eqb_neq. rewrite length_app. simpl. lia.
Qed.

(** The correct submission that completes the sequence. *)
Lemma handleColorClick_completes (w : world) (c : color) :
  isPlayerTurn (gm w) = true ->
  isPaused (gm w) = false ->
  colorBtn_exists (pg w) c = true ->
  nth_error (sequence (gm w)) (List.length (playerSequence (gm w))) = Some c ->
  S (List.length (playerSequence (gm w))) = List.length (sequence (gm w)) ->
  exists w',
    handleColorClick c w = Returns tt w' /\
    gm w' =
    set_score (score (gm w) + 10 * level (gm w) + level (gm w) * 50)
      (set_isPlayerTurn false
         (set_playerSequence (playerSequence (gm w) ++ [c]) (gm w))) /\
    timers w' = timers w ++ [(now w + 2000, TLevelUp)] /\
    pg w' = pg w /\ now w' = now w /\ rng w' = rng w.
Proof.
  intros Ht Hp Hb He Hn.
  destruct w as [p g bd n tm r lg].
  destruct g as [sq ps lv sc ip iss ipt ipa gs df sp].
  cbn [gm pg isPlayerTurn isPaused sequence playerSequence] in *.
  subst ipt ipa. exec. rewrite Hb. exec.
  rewrite expected_after_push, He. cbn [option_color_eqb].
  rewrite String.eqb_refl. exec.
  replace (List.length (ps ++ [c]) =? List.length sq)%nat with true.
  - destruct p as [ga bo pb fb st bc]. destruct fb; exec;
      eexists; repeat split.
  - symmetry. apply Nat.eqb_eq. rewrite length_app. simpl. lia.
Qed.

(** A submission that does not match. *)
Lemma handleColorClick_mismatch (w : world) (c : color) :
  isPlayerTurn (gm w) = true ->
  isPaused (gm w) = false ->
  colorBtn_exists (pg w) c = true ->
  nth_error (sequence (gm w)) (List.length (playerSequence (gm w))) <> Some c ->
  exists w',
    handleColorClick c w = Returns tt w' /\
    gm w' = set_playerSequence (playerSequence (gm w) ++ [c]) (gm w) /\
    timers w' = timers w ++ [(now w + 1500, TEndGame)] /\
    pg w' = pg w /\ now w' = now w /\ rng w' = rng w.
Proof.
  intros Ht Hp Hb He.
  destruct w as [p g bd n tm r lg].
  destruct g as [sq ps lv sc ip iss ipt ipa gs df sp].
  cbn [gm pg isPlayerTurn isPaused sequence playerSequence] in *.
  subst ipt ipa. exec. rewrite Hb. exec.
  rewrite expected_after_push.
  replace (option_color_eqb c (nth_error sq (List.length ps))) with false.
  - destruct p as [ga bo pb fb st bc]. destruct fb; exec;
      eexists; repeat split.
  - symmetry. destruct (nth_error sq (List.length ps)) as [c'|];
      [|reflexivity].
    simpl. apply String.eqb_neq. intros E. subst c'. apply He. reflexivity.
Qed.

(** Answering what is left of the sequence without a mistake. *)
Lemma clicks_all_correct (todo : list color) :
  forall w,
    isPlayerTurn (gm w) = true ->
    isPaused (gm w) = false ->
    (forall c, In c todo -> colorBtn_exists (pg w) c = true) ->
    sequence (gm w) = (playerSequence (gm w) ++ todo)%list ->
    todo <> [] ->
    exists w',
      clicks todo w = Returns tt w' /\
      score (gm w') =
      score (gm w) + 10 * level (gm w) * Z.of_nat (List.length todo)
      + 50 * level (gm w) /\
      level (gm w') = level (gm w) /\
      sequence (gm w') = sequence (gm w) /\
      playerSequence (gm w') = sequence (gm w) /\
      isPlayerTurn (gm w') = false.
Proof.
  induction todo as [|c todo IH]; intros w Ht Hp Hb Hs Hne; [contradiction|].
  assert (He : nth_error (sequence (gm w))
                 (List.length (playerSequence (gm w))) = Some c).
  { rewrite Hs, nth_error_app2 by lia. rewrite Nat.sub_diag. reflexivity. }
  assert (Hbc : colorBtn_exists (pg w) c = true) by (apply Hb; left; reflexivity).
  cbn [clicks]. unfold bind at 1.
  destruct todo as [|c' todo].
  - assert (Hn : S (List.length (playerSequence (gm w)))
                 = List.length (sequence (gm w))).
    { rewrite Hs, length_app. simpl. lia. }
    destruct (handleColorClick_completes w c Ht Hp Hbc He Hn)
      as (w' & E & Hg & _).
    rewrite E. exists w'. split; [reflexivity|]. rewrite Hg.
    cbn [score level sequence playerSequence isPlayerTurn set_score
         set_isPlayerTurn set_playerSequence List.length].
    repeat split; try lia. symmetry. exact Hs.
  - assert (Hn : S (List.length (playerSequence (gm w)))
                 <> List.length (sequence (gm w))).
    { rewrite Hs, length_app. simpl. lia. }
    rewrite (handleColorClick_correct w c Ht Hp Hbc He Hn).
    set (w1 := set_gm _ w).
    destruct (IH w1) as (w' & E & Hsc & Hlv & Hsq & Hps & Hpt).
    + exact Ht.
    + exact Hp.
    + intros x Hx. apply Hb. right. exact Hx.
    + subst w1. cbn [gm set_gm sequence playerSequence set_score
                     set_playerSequence].
      rewrite Hs, <- app_assoc. reflexivity.
    + discriminate.
    + exists w'. split; [exact E|]. rewrite Hsc, Hlv, Hsq, Hps.
      subst w1. cbn [gm set_gm score level sequence set_score
                     set_playerSequence].
      repeat split; try assumption.
      change (List.length (c :: c' :: todo)) with (S (List.length (c' :: todo))).
      lia.
Qed.

Lemma drawn_color_cases (k : Z) :
  let c := nth (index_of_draw k (List.length colors)) colors "" in
  c = "red" \/ c = "blue" \/ c = "green" \/ c = "yellow".
Proof.
  pose proof (drawn_color_in k) as H. simpl in H. simpl.
  destruct H as [H | [H | [H | [H | H]]]]; auto; contradiction.
Qed.

Lemma nextColor_medium (w : world) (k : Z) (rest : list Z) :
  rng w = k :: rest ->
  nextColor "medium" w =
  Returns (nth (index_of_draw k (List.length colors)) colors "")
          (set_rng rest w).
Proof.
  intros Hr. change (nextColor "medium") with randomColor.
  unfold randomColor, bind, random_index, ret. rewrite Hr. reflexivity.
Qed.

Lemma run_step (e : event) (es : list event) (w w1 : world) :
  step e w = Some w1 -> run (e :: es) w = run es w1.
Proof. intros H. simpl. rewrite H. reflexivity. Qed.

(** A game at the default settings, played without a mistake through
    levels 1 and 2, whatever [Math.random()] gives: 60 points after the
    first level, 200 after the second. *)
Lemma two_levels_all_correct (k1 k2 : Z) (rest : list Z) (c1 c2 : color) :
  nth (index_of_draw k1 (List.length colors)) colors "" = c1 ->
  nth (index_of_draw k2 (List.length colors)) colors "" = c2 ->
  exists w1 w2,
    run [Start; Elapse 800; Fire; Click c1]
        (new_world game_page "medium" 3 (k1 :: k2 :: rest)) = Some w1 /\
    (sequence (gm w1) = [c1] /\ level (gm w1) = 1 /\ score (gm w1) = 60) /\
    run [Elapse 2000; Fire; Elapse 800; Fire; Elapse 800; Fire;
         Click c1; Click c2] w1 = Some w2 /\
    (sequence (gm w2) = [c1; c2] /\ level (gm w2) = 2 /\ score (gm w2) = 200).
Proof.
  intros H1 H2.
  destruct (drawn_color_cases k1) as [E1 | [E1 | [E1 | E1]]];
    rewrite H1 in E1; rewrite E1 in *; clear E1 c1;
  destruct (drawn_color_cases k2) as [E2 | [E2 | [E2 | E2]]];
    rewrite H2 in E2; rewrite E2 in *; clear E2 c2.
  all: eexists; eexists.
  all: split;
    [ erewrite run_step;
       [| unfold step, new_world, new_game, game_page; exec;
          erewrite nextColor_medium by reflexivity; exec;
          rewrite H1; vm_compute; reflexivity ];
      vm_compute; reflexivity
    | split; [ vm_compute; repeat split | ] ].
  all: split;
    [ erewrite run_step; [| vm_compute; reflexivity];
      erewrite run_step;
       [| unfold step; exec;
          cbn [least_due take_due Z.min Z.compare Pos.compare
               Pos.compare_cont Z.leb Z.eqb Pos.eqb];
          exec;
          erewrite nextColor_medium by reflexivity; exec;
          rewrite H2; vm_compute; reflexivity ];
      vm_compute; reflexivity
    | vm_compute; repeat split ].
Qed.

Lemma handleSequenceComplete_bonus (w : world) :
  exists w',
    handleSequenceComplete w = Returns tt w' /\
    score (gm w') = score (gm w) + 50 * level (gm w) /\
    level (gm w') = level (gm w).
Proof.
  destruct w as [p g bd n tm r lg]. destruct p as [ga bo pb fb st bc].
  destruct g as [sq ps lv sc ip iss ipt ipa gs df sp].
  destruct fb; exec; eexists; (split; [reflexivity|]); exec; split; lia.
Qed.

(** C4.  At every level [L]: (1) a correct submission that does not
    complete the sequence adds exactly [10 * L] to the score; (2) the
    completion handler adds exactly [50 * L], so that the correct
    submission that completes the sequence adds [10 * L + 50 * L];
    (3) answering a whole sequence of [n] colors without a mistake adds
    [10 * L * n + 50 * L]; (4) in a game at the default settings, whatever
    the colors drawn, the all-correct play has 60 points after level 1 and
    200 after level 2. *)
Theorem scoring_rule :
  (forall w c,
     isPlayerTurn (gm w) = true -> isPaused (gm w) = false ->
     colorBtn_exists (pg w) c = true ->
     nth_error (sequence (gm w)) (List.length (playerSequence (gm w)))
     = Some c ->
     S (List.length (playerSequence (gm w))) <> List.length (sequence (gm w)) ->
     exists w',
       handleColorClick c w = Returns tt w' /\
       score (gm w') = score (gm w) + 10 * level (gm w) /\
       level (gm w') = level (gm w)) /\
  (forall w,
     exists w',
       handleSequenceComplete w = Returns tt w' /\
       score (gm w') = score (gm w) + 50 * level (gm w) /\
       level (gm w') = level (gm w)) /\
  (forall w c,
     isPlayerTurn (gm w) = true -> isPaused (gm w) = false ->
     colorBtn_exists (pg w) c = true ->
     nth_error (sequence (gm w)) (List.length (playerSequence (gm w)))
     = Some c ->
     S (List.length (playerSequence (gm w))) = List.length (sequence (gm w)) ->
     exists w',
       handleColorClick c w = Returns tt w' /\
       score (gm w') = score (gm w) + 10 * level (gm w) + 50 * level (gm w) /\
       level (gm w') = level (gm w)) /\
  (forall w,
     isPlayerTurn (gm w) = true -> isPaused (gm w) = false ->
     playerSequence (gm w) = [] -> sequence (gm w) <> [] ->
     (forall c, In c (sequence (gm w)) -> colorBtn_exists (pg w) c = true) ->
     exists w',
       clicks (sequence (gm w)) w = Returns tt w' /\
       score (gm w') =
       score (gm w)
       + 10 * level (gm w) * Z.of_nat (List.length (sequence (gm w)))
       + 50 * level (gm w)) /\
  (forall k1 k2 rest,
     let c1 := nth (index_of_draw k1 (List.length colors)) colors "" in
     let c2 := nth (index_of_draw k2 (List.length colors)) colors "" in
     exists w1 w2,
       run [Start; Elapse 800; Fire; Click c1]
           (new_world game_page "medium" 3 (k1 :: k2 :: rest)) = Some w1 /\
       (sequence (gm w1) = [c1] /\ level (gm w1) = 1 /\ score (gm w1) = 60) /\
       run [Elapse 2000; Fire; Elapse 800; Fire; Elapse 800; Fire;
            Click c1; Click c2] w1 = Some w2 /\
       (sequence (gm w2) = [c1; c2] /\ level (gm w2) = 2 /\
        score (gm w2) = 200)).
Proof.
  split; [|split; [|split; [|split]]].
  - intros w c Ht Hp Hb He Hn.
    rewrite (handleColorClick_correct w c Ht Hp Hb He Hn).
    eexists. split; [reflexivity|]. split; reflexivity.
  - exact handleSequenceComplete_bonus.
  - intros w c Ht Hp Hb He Hn.
    destruct (handleColorClick_completes w c Ht Hp Hb He Hn)
      as (w' & E & Hg & _).
    exists w'. split; [exact E|]. rewrite Hg.
    cbn [score level set_score set_isPlayerTurn set_playerSequence].
    split; [lia | reflexivity].
  - intros w Ht Hp Hps Hne Hb.
    destruct (clicks_all_correct (sequence (gm w)) w Ht Hp Hb) as (w' & E & Hsc & _).
    + rewrite Hps. reflexivity.
    + exact Hne.
    + exists w'. split; [exact E | exact Hsc].
  - intros k1 k2 rest c1 c2.
    exact (two_levels_all_correct k1 k2 rest c1 c2 eq_refl eq_refl).
Qed.

Lemma scoring_rule_witness :
  exists w',
    handleColorClick "blue" w_level2 = Returns tt w' /\
    score (gm w') = 60 + 10 * 2 /\
    level (gm w') = 2.
Proof.
  destruct scoring_rule as (H & _).
  apply (H w_level2 "blue"); try reflexivity. discriminate.
Defined.

(** ** After a wrong color *)

(** What [endGame] tells the storage manager and the feedback element. *)
Lemma endGame_reports (w : world) :
  exists w',
    endGame w = Returns tt w' /\
    gm w' = set_isPlayerTurn false (set_isPlaying false (gm w)) /\
    now w' = now w /\
    log w' =
    log w
    ++ (if has_storage (pg w) && gameSession (gm w)
        then [RecordGameEnd (score (gm w)) (level (gm w))] else [])
    ++ (if has_feedback (pg w) then [Feedback (GameOver (score (gm w)))]
        else []).
Proof.
  destruct w as [p g bd n tm r lg]. destruct p as [ga bo pb fb st bc].
  destruct g as [sq ps lv sc ip iss ipt ipa gs df sp].
  destruct st, gs, fb; exec; eexists;
    (split; [reflexivity|]); exec; split; try reflexivity;
    split; try reflexivity;
    rewrite ?app_nil_r, <- ?app_assoc; reflexivity.
Qed.

(** A wrong color, then nothing but the passing of time: the mismatch
    leaves the score alone and sets [endGame] to run 1500 ms later; when it
    runs, the game is over and the score reported is the score the player
    had at the mismatch. *)
Lemma mismatch_then_silence (w : world) (c : color) :
  isPlayerTurn (gm w) = true ->
  isPaused (gm w) = false ->
  colorBtn_exists (pg w) c = true ->
  nth_error (sequence (gm w)) (List.length (playerSequence (gm w))) <> Some c ->
  timers w = [] ->
  exists w1 w2,
    handleColorClick c w = Returns tt w1 /\
    score (gm w1) = score (gm w) /\
    timers w1 = [(now w + 1500, TEndGame)] /\
    run [Elapse 1500; Fire] w1 = Some w2 /\
    now w2 = now w + 1500 /\
    isPlaying (gm w2) = false /\
    score (gm w2) = score (gm w) /\
    log w2 =
    log w1
    ++ (if has_storage (pg w) && gameSession (gm w)
        then [RecordGameEnd (score (gm w)) (level (gm w))] else [])
    ++ (if has_feedback (pg w) then [Feedback (GameOver (score (gm w)))]
        else []).
Proof.
  intros Ht Hp Hb He Htm.
  destruct (handleColorClick_mismatch w c Ht Hp Hb He)
    as (w1 & E & Hg & Htm1 & Hpg & Hnow & _).
  rewrite Htm in Htm1. simpl in Htm1.
  destruct w1 as [p1 g1 bd1 n1 tm1 r1 lg1].
  cbn [gm pg now timers] in Hg, Htm1, Hpg, Hnow. subst p1 g1 n1 tm1.
  destruct (endGame_reports
              (mkWorld (pg w)
                 (set_playerSequence (playerSequence (gm w) ++ [c]) (gm w))
                 bd1 (now w + 1500) [] r1 lg1))
    as (w2 & E2 & Hg2 & Hn2 & Hl2).
  cbn [now] in Hn2.
  eexists. exists w2. split; [exact E|].
  split; [reflexivity|].
  split; [reflexivity|].
  split.
  - cbn [run]. unfold step.
    cbn [timers now set_now forallb fst].
    replace (0 <=? 1500) with true by reflexivity.
    rewrite Z.leb_refl. cbn [andb timers now set_now least_due take_due].
    rewrite Z.min_id, Z.leb_refl, Z.eqb_refl.
    cbn [run_task]. unfold set_timers, set_now.
    cbn [pg gm buttonsDisabled now rng log].
    rewrite E2. reflexivity.
  - rewrite Hg2, Hl2.
    cbn [gm pg now log isPlaying score level gameSession
         set_isPlayerTurn set_isPlaying set_playerSequence].
    repeat split; try reflexivity. exact Hn2.
Qed.

(** As long as the player sequence is shorter than the sequence, a
    submission, however it ends, leaves it no longer than the sequence. *)
Lemma click_within_sequence (w w' : world) (c : color) :
  (List.length (playerSequence (gm w)) < List.length (sequence (gm w)))%nat ->
  settle (handleColorClick c w) = Some w' ->
  (List.length (playerSequence (gm w')) <= List.length (sequence (gm w')))%nat.
Proof.
  intros Hlt H.
  destruct (negb (isPlayerTurn (gm w)) || isPaused (gm w)) eqn:Hg.
  - unfold handleColorClick, bind, this in H. rewrite Hg in H.
    injection H as H. subst w'. lia.
  - apply orb_false_iff in Hg. destruct Hg as [Ht Hp].
    apply negb_false_iff in Ht.
    destruct (colorBtn_exists (pg w) c) eqn:Hb.
    + destruct (option_color_eqb c
                  (nth_error (sequence (gm w))
                     (List.length (playerSequence (gm w))))) eqn:He.
      * assert (He' : nth_error (sequence (gm w))
                        (List.length (playerSequence (gm w))) = Some c).
        { destruct (nth_error _ _) as [c'|]; [|discriminate He].
          simpl in He. apply String.eqb_eq in He. subst c'. reflexivity. }
        destruct (Nat.eq_dec (S (List.length (playerSequence (gm w))))
                             (List.length (sequence (gm w)))) as [Hn | Hn].
        -- destruct (handleColorClick_completes w c Ht Hp Hb He' Hn)
             as (w1 & E & Hgm & _).
           rewrite E in H. injection H as H. subst w1. rewrite Hgm.
           cbn [playerSequence sequence set_score set_isPlayerTurn
                set_playerSequence].
           rewrite length_app. simpl. lia.
        -- rewrite (handleColorClick_correct w c Ht Hp Hb He' Hn) in H.
           injection H as H. subst w'.
           cbn [gm set_gm playerSequence sequence set_score
                set_playerSequence].
           rewrite length_app. simpl. lia.
      * assert (He' : nth_error (sequence (gm w))
                        (List.length (playerSequence (gm w))) <> Some c).
        { intros E. rewrite E in He. simpl in He.
          rewrite String.eqb_refl in He. discriminate He. }
        destruct (handleColorClick_mismatch w c Ht Hp Hb He')
          as (w1 & E & Hgm & _).
        rewrite E in H. injection H as H. subst w1. rewrite Hgm.
        cbn [playerSequence sequence set_playerSequence].
        rewrite length_app. simpl. lia.
    + unfold handleColorClick, bind, this, document in H.
      rewrite Ht, Hp in H. simpl in H. rewrite Hb in H.
      injection H as H. subst w'. lia.
Qed.

(** The state in which a click is still taken: the sibling handler
    [handleSequenceComplete] closes the player's turn at once, while after
    [handleIncorrectColor] the turn stays open, and the buttons enabled,
    until the delayed [endGame] runs. *)
Lemma turn_open_after_mismatch :
  exists w,
    run [Click "blue"] w_level1 = Some w /\
    isPlayerTurn (gm w) = true /\
    buttonsDisabled w = false /\
    timers w = [(now w + 1500, TEndGame)].
Proof. eexists. split; [vm_compute; reflexivity|]. repeat split. Qed.

(** C1, at the failing input.  A game is started at the default settings
    and shows the one-color sequence [red]; the player clicks blue twice
    within the 1500 ms that follow the first mismatch.  Both clicks are
    appended: the state reached has a player sequence of length 2 against a
    sequence of length 1. *)
Theorem click_after_mismatch_overruns :
  exists w,
    run [Start; Elapse 800; Fire; Click "blue"; Click "blue"]
        (new_world game_page "medium" 3 [draw_for 0]) = Some w /\
    reachable w /\
    sequence (gm w) = ["red"] /\
    playerSequence (gm w) = ["blue"; "blue"] /\
    (List.length (sequence (gm w)) < List.length (playerSequence (gm w)))%nat.
Proof.
  eexists. split; [vm_compute; reflexivity|].
  split.
  - exists game_page, "medium", 3, [draw_for 0],
      [Start; Elapse 800; Fire; Click "blue"; Click "blue"].
    vm_compute. reflexivity.
  - repeat split. simpl. lia.
Qed.

(** C2, at the failing input.  At level 2 with [sequence = [blue; red]]
    and 60 points, the player clicks green (a mismatch at the first
    position: no points, [endGame] set to run in 1500 ms) and then, before
    it runs, red, which matches the second position: the click scores 20,
    completes the level for 100 more, and the game that ends 1500 ms after
    the mismatch reports 180, not 60. *)
Theorem score_moves_after_mismatch :
  exists w0 w1 w2,
    run [Start; Elapse 800; Fire; Click "blue"; Elapse 2000; Fire;
         Elapse 800; Fire; Elapse 800; Fire]
        (new_world game_page "medium" 3 [draw_for 1; draw_for 0; draw_for 2])
    = Some w0 /\
    (isPlayerTurn (gm w0) = true /\ sequence (gm w0) = ["blue"; "red"] /\
     playerSequence (gm w0) = [] /\ score (gm w0) = 60) /\
    run [Click "green"] w0 = Some w1 /\
    (score (gm w1) = 60 /\ timers w1 = [(now w0 + 1500, TEndGame)]) /\
    run [Click "red"; Elapse 1500; Fire] w1 = Some w2 /\
    (now w2 = now w0 + 1500 /\ isPlaying (gm w2) = false /\
     score (gm w2) = 180 /\
     log w2 = log w1 ++ [Feedback (LevelComplete 2); RecordGameEnd 180 2;
                         Feedback (GameOver 180)]).
Proof.
  eexists. eexists. eexists.
  split; [vm_compute; reflexivity|].
  split; [repeat split|].
  split; [vm_compute; reflexivity|].
  split; [repeat split|].
  split; [vm_compute; reflexivity|].
  repeat split.
Qed.

(** * Further properties of the engine *)

(** ** Invariants of the event loop *)

(** Whatever the difficulty, the color chosen is one of the four and only
    draws are used up. *)
Lemma nextColor_result (d : string) (w : world) :
  match nextColor d w with
  | Returns c w' => In c colors /\ exists r, w' = set_rng r w
  | Throws _ _ => False
  | Starved => True
  end.
Proof.
  assert (Hrand : match randomColor w with
                  | Returns c w' => In c colors /\ exists r, w' = set_rng r w
                  | Throws _ _ => False
                  | Starved => True
                  end).
  { unfold randomColor, bind, random_index, ret.
    destruct (rng w) as [|k rest]; [exact I|].
    split; [apply drawn_color_in | exists rest; reflexivity]. }
  unfold nextColor.
  destruct (String.eqb d "easy").
  - unfold easyColor.
    destruct (easy_loop (sequence (gm w)) (rng w)) as [[c rest]|] eqn:E;
      [|exact I].
    apply easy_loop_sound in E. destruct E as [Hin _].
    split; [exact Hin | exists rest; reflexivity].
  - destruct (String.eqb d "medium"); [exact Hrand|].
    destruct (String.eqb d "hard"); [exact Hrand|].
    destruct (String.eqb d "adaptive"); [|exact Hrand].
    rewrite getAdaptiveColor_random. exact Hrand.
Qed.

(** Case analysis on everything a method branches on. *)
Ltac branch :=
  match goal with
  | |- context [nextColor ?d ?w] =>
      let H := fresh "Hnext" in
      let c := fresh "c" in
      let w1 := fresh "w1" in
      let r := fresh "r" in
      pose proof (nextColor_result d w) as H;
      destruct (nextColor d w) as [c w1 | |];
      [ destruct H as [H [r ->]] | contradiction | ]
  | |- context [if ?b then _ else _] => is_var b; destruct b
  | |- context [if ?b then _ else _] =>
      let E := fresh "E" in destruct b eqn:E
  end.

Ltac crunch := exec; repeat (branch; exec).

(** What an event that happened has done. *)
Lemma step_inv (e : event) (w w' : world) :
  step e w = Some w' ->
  match e with
  | Start => settle (startGame w) = Some w'
  | Replay => settle (replaySequence w) = Some w'
  | TogglePause => settle (togglePause w) = Some w'
  | Click c =>
      colorBtn_exists (pg w) c = true /\ buttonsDisabled w = false /\
      settle (handleColorClick c w) = Some w'
  | SetDifficulty d => settle (setDifficulty d w) = Some w'
  | SetSpeed s => settle (setSpeed s w) = Some w'
  | Elapse dt => 0 <= dt /\ w' = set_now (now w + dt) w
  | Fire =>
      exists d t rest,
        d <= now w /\
        take_due d (timers w) = Some (t, rest) /\
        settle (run_task t (set_timers rest w)) = Some w'
  end.
Proof.
  destruct e; unfold step.
  - exact (fun H => H).
  - exact (fun H => H).
  - exact (fun H => H).
  - destruct (colorBtn_exists (pg w) c); [|discriminate].
    destruct (buttonsDisabled w); [discriminate|].
    cbn [andb negb]. intros H. repeat split. exact H.
  - exact (fun H => H).
  - exact (fun H => H).
  - destruct (0 <=? dt) eqn:E; [|discriminate].
    destruct (forallb _ _); [|discriminate].
    cbn [andb]. intros H. injection H as H. split; [lia | symmetry; exact H].
  - destruct (timers w) as [|[d0 t0] ts]; [discriminate|].
    destruct (least_due d0 ((d0, t0) :: ts) <=? now w) eqn:E; [|discriminate].
    destruct (take_due (least_due d0 ((d0, t0) :: ts)) ((d0, t0) :: ts))
      as [[t rest]|] eqn:Ed; [|discriminate].
    intros H. exists (least_due d0 ((d0, t0) :: ts)), t, rest.
    split; [lia|]. split; [exact Ed | exact H].
Qed.

Lemma run_cons_inv (e : event) (es : list event) (w w' : world) :
  run (e :: es) w = Some w' ->
  exists w1, step e w = Some w1 /\ run es w1 = Some w'.
Proof.
  intros H. cbn [run] in H. destruct (step e w) as [w1|]; [|discriminate H].
  exists w1. split; [reflexivity | exact H].
Qed.

Section StepInvariant.

Variable P : world -> Prop.

Hypothesis P_startGame : keeps P startGame.
Hypothesis P_replaySequence : keeps P replaySequence.
Hypothesis P_togglePause : keeps P togglePause.
Hypothesis P_handleColorClick : forall c, keeps P (handleColorClick c).
Hypothesis P_setDifficulty : forall d, keeps P (setDifficulty d).
Hypothesis P_setSpeed : forall s, keeps P (setSpeed s).
Hypothesis P_elapse : forall w t, P w -> P (set_now t w).
Hypothesis P_fire :
  forall w d t rest,
    P w -> take_due d (timers w) = Some (t, rest) ->
    match run_task t (set_timers rest w) with
    | Returns _ w' => P w'
    | Throws _ w' => P w'
    | Starved => True
    end.

Lemma settle_keeps (o : outcome unit) (w' : world) :
  match o with
  | Returns _ w1 => P w1
  | Throws _ w1 => P w1
  | Starved => True
  end ->
  settle o = Some w' -> P w'.
Proof.
  intros H E. destruct o as [a w1 | e w1 |]; simpl in E;
    try discriminate E; injection E as E; subst w1; exact H.
Qed.

Lemma step_keeps (e : event) (w w' : world) :
  P w -> step e w = Some w' -> P w'.
Proof.
  intros Hw H. apply step_inv in H. destruct e.
  - exact (settle_keeps (startGame w) w' (P_startGame w Hw) H).
  - exact (settle_keeps (replaySequence w) w' (P_replaySequence w Hw) H).
  - exact (settle_keeps (togglePause w) w' (P_togglePause w Hw) H).
  - destruct H as (_ & _ & H).
    exact (settle_keeps (handleColorClick c w) w'
             (P_handleColorClick c w Hw) H).
  - exact (settle_keeps (setDifficulty d w) w' (P_setDifficulty d w Hw) H).
  - exact (settle_keeps (setSpeed s w) w' (P_setSpeed s w Hw) H).
  - destruct H as (_ & H). subst w'. apply P_elapse. exact Hw.
  - destruct H as (d & t & rest & _ & Ed & H).
    exact (settle_keeps (run_task t (set_timers rest w)) w'
             (P_fire w d t rest Hw Ed) H).
Qed.

Lemma run_keeps (es : list event) (w w' : world) :
  P w -> run es w = Some w' -> P w'.
Proof.
  revert w. induction es as [|e es IH]; intros w Hw H; simpl in H.
  - injection H as H. subst w'. exact Hw.
  - destruct (step e w) as [w1|] eqn:E; [|discriminate H].
    apply (IH w1); [|exact H]. exact (step_keeps e w w1 Hw E).
Qed.

End StepInvariant.

(** A method run on a world given field by field, every branch taken. *)
Ltac by_cases fin :=
  let w := fresh "w" in
  let Hw := fresh "Hw" in
  intros w Hw;
  destruct w as [[ga bo pb fb st bc]
                 [sq ps lv sc ip iss ipt ipa gs df sp] bd n tm r lg];
  crunch; try exact I; fin.

(** ** The lifecycle flags and the buttons *)

Ltac flags_tac :=
  unfold flags_consistent in *;
  cbn [gm buttonsDisabled isShowingSequence isPlayerTurn isPlaying isPaused]
    in *;
  intuition congruence.

Lemma flags_startGame : keeps flags_consistent startGame.
Proof. by_cases flags_tac. Qed.

Lemma flags_replaySequence : keeps flags_consistent replaySequence.
Proof. by_cases flags_tac. Qed.

Lemma flags_togglePause : keeps flags_consistent togglePause.
Proof. by_cases flags_tac. Qed.

Lemma flags_handleColorClick (c : color) :
  keeps flags_consistent (handleColorClick c).
Proof. by_cases flags_tac. Qed.

Lemma flags_setDifficulty (d : string) :
  keeps flags_consistent (setDifficulty d).
Proof. by_cases flags_tac. Qed.

Lemma flags_setSpeed (s : Z) : keeps flags_consistent (setSpeed s).
Proof. by_cases flags_tac. Qed.

Lemma flags_run_task (t : task) : keeps flags_consistent (run_task t).
Proof. destruct t; cbn [run_task]; by_cases flags_tac. Qed.

Lemma flags_reachable (w : world) : reachable w -> flags_consistent w.
Proof.
  intros (p & d & s & draws & es & H).
  apply (run_keeps flags_consistent) with (es := es)
    (w := new_world p d s draws); try exact H.
  - exact flags_startGame.
  - exact flags_replaySequence.
  - exact flags_togglePause.
  - exact flags_handleColorClick.
  - exact flags_setDifficulty.
  - exact flags_setSpeed.
  - intros w0 t H0. exact H0.
  - intros w0 d0 t rest H0 _. apply (flags_run_task t (set_timers rest w0)).
    exact H0.
  - unfold flags_consistent. cbn. intuition congruence.
Qed.

(** X1.  In every state the engine can reach: the sequence is never being
    shown during the player's turn, the player's turn only exists while a
    game is playing, and the color buttons are enabled in an unpaused
    player's turn and disabled whenever the game is paused or the sequence
    is being shown. *)
Theorem reachable_flags_consistent (w : world) :
  reachable w ->
  (isShowingSequence (gm w) = true -> isPlayerTurn (gm w) = false) /\
  (isPlayerTurn (gm w) = true -> isPlaying (gm w) = true) /\
  (isPlayerTurn (gm w) = true -> isPaused (gm w) = false ->
   buttonsDisabled w = false) /\
  (isPaused (gm w) = true -> buttonsDisabled w = true) /\
  (isShowingSequence (gm w) = true -> buttonsDisabled w = true).
Proof. exact (flags_reachable w). Qed.

Lemma level2_reachable : reachable w_level2.
Proof.
  exists game_page, "medium", 3, [draw_for 1; draw_for 0; draw_for 2],
    [Start; Elapse 800; Fire; Click "blue"; Elapse 2000; Fire;
     Elapse 800; Fire; Elapse 800; Fire].
  vm_compute. reflexivity.
Qed.

Lemma reachable_flags_consistent_witness :
  isPlaying (gm w_level2) = true /\ buttonsDisabled w_level2 = false.
Proof.
  destruct (reachable_flags_consistent w_level2 level2_reachable)
    as (_ & H2 & H3 & _).
  split; [apply H2 | apply H3]; reflexivity.
Defined.

(** ** What the sequence, the level and the score can hold *)

Ltac sound_tac :=
  unfold sound_game, on_game in *;
  cbn [gm sequence level score] in *;
  match goal with
  | H : _ /\ _ /\ _ /\ _ |- _ =>
      let Hs := fresh "Hs" in
      let Hl := fresh "Hl" in
      let Hn := fresh "Hn" in
      let Hm := fresh "Hm" in
      destruct H as (Hs & Hl & Hn & Hm);
      repeat split;
      try (apply Forall_app; split;
           [assumption | apply Forall_cons; [assumption | apply Forall_nil]]);
      try assumption; try apply Forall_nil;
      try (apply Forall_cons; [assumption | apply Forall_nil]);
      try (Z.div_mod_to_equations; lia)
  end.

Lemma sound_startGame : keeps (on_game sound_game) startGame.
Proof. by_cases sound_tac. Qed.

Lemma sound_replaySequence : keeps (on_game sound_game) replaySequence.
Proof. by_cases sound_tac. Qed.

Lemma sound_togglePause : keeps (on_game sound_game) togglePause.
Proof. by_cases sound_tac. Qed.

Lemma sound_handleColorClick (c : color) :
  keeps (on_game sound_game) (handleColorClick c).
Proof. by_cases sound_tac. Qed.

Lemma sound_setDifficulty (d : string) :
  keeps (on_game sound_game) (setDifficulty d).
Proof. by_cases sound_tac. Qed.

Lemma sound_setSpeed (s : Z) : keeps (on_game sound_game) (setSpeed s).
Proof. by_cases sound_tac. Qed.

Lemma sound_run_task (t : task) : keeps (on_game sound_game) (run_task t).
Proof. destruct t; cbn [run_task]; by_cases sound_tac. Qed.

Lemma sound_reachable (w : world) : reachable w -> sound_game (gm w).
Proof.
  intros (p & d & s & draws & es & H).
  apply (run_keeps (on_game sound_game)) with (es := es)
    (w := new_world p d s draws); try exact H.
  - exact sound_startGame.
  - exact sound_replaySequence.
  - exact sound_togglePause.
  - exact sound_handleColorClick.
  - exact sound_setDifficulty.
  - exact sound_setSpeed.
  - intros w0 t H0. exact H0.
  - intros w0 d0 t rest H0 _. apply (sound_run_task t (set_timers rest w0)).
    exact H0.
  - unfold on_game, sound_game. cbn. repeat split; try lia. constructor.
Qed.

(** X3.  In every reachable state, whatever the difficulty and however it
    was changed on the way, each element of the sequence is one of the four
    colors of [this.colors]. *)
Theorem reachable_sequence_colors (w : world) (c : color) :
  reachable w -> In c (sequence (gm w)) -> In c colors.
Proof.
  intros Hr Hin. destruct (sound_reachable w Hr) as (Hs & _).
  rewrite Forall_forall in Hs. exact (Hs c Hin).
Qed.

Lemma reachable_sequence_colors_witness : In "blue" colors.
Proof.
  apply (reachable_sequence_colors w_level2 "blue" level2_reachable).
  left. reflexivity.
Defined.

(** X4.  In every reachable state the level is at least 1 and the score is
    a non-negative multiple of 10. *)
Theorem reachable_level_score (w : world) :
  reachable w ->
  1 <= level (gm w) /\ 0 <= score (gm w) /\ score (gm w) mod 10 = 0.
Proof.
  intros Hr. destruct (sound_reachable w Hr) as (_ & H). exact H.
Qed.

Lemma reachable_level_score_witness :
  1 <= level (gm w_level2) /\ 0 <= score (gm w_level2) /\
  score (gm w_level2) mod 10 = 0.
Proof. exact (reachable_level_score w_level2 level2_reachable). Defined.

(** ** The level counts the colors *)

Ltac level_tac :=
  unfold level_length in *;
  cbn [pg gm sequence level has_gameArea has_board] in *;
  match goal with
  | H : _ /\ _ /\ _ |- _ =>
      destruct H as (? & ? & ?); try discriminate;
      repeat split; try assumption;
      rewrite ?length_app; cbn [List.length]; lia
  end.

Lemma level_startGame_any (w : world) :
  has_gameArea (pg w) = true -> has_board (pg w) = true ->
  match startGame w with
  | Returns _ w' => level_length w'
  | Throws _ w' => level_length w'
  | Starved => True
  end.
Proof.
  intros Hga Hbo.
  destruct w as [[ga bo pb fb st bc]
                 [sq ps lv sc ip iss ipt ipa gs df sp] bd n tm r lg].
  cbn [pg has_gameArea has_board] in Hga, Hbo. subst ga bo.
  crunch; try exact I; unfold level_length; cbn; repeat split; lia.
Qed.

Lemma level_startGame : keeps level_length startGame.
Proof.
  intros w (Hga & Hbo & _). exact (level_startGame_any w Hga Hbo).
Qed.

Lemma level_replaySequence : keeps level_length replaySequence.
Proof. by_cases level_tac. Qed.

Lemma level_togglePause : keeps level_length togglePause.
Proof. by_cases level_tac. Qed.

Lemma level_handleColorClick (c : color) :
  keeps level_length (handleColorClick c).
Proof. by_cases level_tac. Qed.

Lemma level_setDifficulty (d : string) : keeps level_length (setDifficulty d).
Proof. by_cases level_tac. Qed.

Lemma level_setSpeed (s : Z) : keeps level_length (setSpeed s).
Proof. by_cases level_tac. Qed.

Lemma level_run_task (t : task) : keeps level_length (run_task t).
Proof. destruct t; cbn [run_task]; by_cases level_tac. Qed.

(** X5.  On a page that has the game area and the board, from the first
    [startGame] on, whatever the state it was called in and whatever
    happens afterwards (stale timers included), the level is the number of
    colors in the sequence. *)
Theorem level_counts_colors (w0 w : world) (es : list event) :
  has_gameArea (pg w0) = true ->
  has_board (pg w0) = true ->
  run (Start :: es) w0 = Some w ->
  level (gm w) = Z.of_nat (List.length (sequence (gm w))).
Proof.
  intros Hga Hbo H. apply run_cons_inv in H. destruct H as (w1 & E & H).
  assert (H1 : level_length w1).
  { apply (step_inv Start) in E.
    pose proof (level_startGame_any w0 Hga Hbo) as H0.
    destruct (startGame w0) as [a w2 | e w2 |]; cbn [settle] in E;
      try discriminate E; injection E as E; subst w2; exact H0. }
  assert (Hw : level_length w).
  { apply (run_keeps level_length) with (es := es) (w := w1);
      try exact H; try exact H1.
    - exact level_startGame.
    - exact level_replaySequence.
    - exact level_togglePause.
    - exact level_handleColorClick.
    - exact level_setDifficulty.
    - exact level_setSpeed.
    - intros w2 t H2. exact H2.
    - intros w2 d0 t rest H2 _.
      apply (level_run_task t (set_timers rest w2)). exact H2. }
  destruct Hw as (_ & _ & Hl). exact Hl.
Qed.

Lemma level_counts_colors_witness :
  level (gm w_level2) = Z.of_nat (List.length (sequence (gm w_level2))).
Proof.
  apply (level_counts_colors
           (new_world game_page "medium" 3
                      [draw_for 1; draw_for 0; draw_for 2])
           w_level2
           [Elapse 800; Fire; Click "blue"; Elapse 2000; Fire;
            Elapse 800; Fire; Elapse 800; Fire]).
  - reflexivity.
  - reflexivity.
  - vm_compute. reflexivity.
Defined.

(** ** Timers are never cancelled *)

Ltac extends_tac :=
  unfold extends_timers in *; cbn [timers] in *;
  match goal with
  | H : exists _, _ |- _ =>
      let l := fresh "l" in
      destruct H as [l H]; subst;
      rewrite <- ?app_assoc; eexists; reflexivity
  end.

Lemma extends_startGame x : keeps (extends_timers x) startGame.
Proof. by_cases extends_tac. Qed.

Lemma extends_replaySequence x : keeps (extends_timers x) replaySequence.
Proof. by_cases extends_tac. Qed.

Lemma extends_togglePause x : keeps (extends_timers x) togglePause.
Proof. by_cases extends_tac. Qed.

Lemma extends_handleColorClick x (c : color) :
  keeps (extends_timers x) (handleColorClick c).
Proof. by_cases extends_tac. Qed.

Lemma extends_run_task x (t : task) : keeps (extends_timers x) (run_task t).
Proof. destruct t; cbn [run_task]; by_cases extends_tac. Qed.

Lemma extends_settle x (m : M unit) (w w' : world) :
  keeps (extends_timers x) m -> timers w = x -> settle (m w) = Some w' ->
  exists l, timers w' = x ++ l.
Proof.
  intros Hm Hx H.
  assert (H0 : extends_timers x w) by (exists []; rewrite app_nil_r; exact Hx).
  specialize (Hm w H0).
  destruct (m w) as [a w1 | e w1 |]; simpl in H; try discriminate H;
    injection H as H; subst w1; exact Hm.
Qed.

(** X6.  No method cancels a timer.  An event other than the firing of a
    timer leaves every pending callback pending (in the same order, new
    ones behind); the firing of a timer removes the one callback it runs
    and nothing else.  In particular a restart does not cancel the
    [endGame] an earlier mismatch has scheduled. *)
Theorem timers_never_cancelled (e : event) (w w' : world) :
  step e w = Some w' ->
  (e <> Fire -> exists added, timers w' = timers w ++ added) /\
  (e = Fire ->
   exists d t rest added,
     take_due d (timers w) = Some (t, rest) /\
     timers w' = rest ++ added).
Proof.
  intros H. apply step_inv in H. split.
  - intros He. destruct e.
    + exact (extends_settle _ startGame w w' (extends_startGame _) eq_refl H).
    + exact (extends_settle _ replaySequence w w'
               (extends_replaySequence _) eq_refl H).
    + exact (extends_settle _ togglePause w w'
               (extends_togglePause _) eq_refl H).
    + destruct H as (_ & _ & H).
      exact (extends_settle _ (handleColorClick c) w w'
               (extends_handleColorClick _ c) eq_refl H).
    + cbn [settle setDifficulty assign] in H. injection H as H. subst w'.
      exists []. rewrite app_nil_r. reflexivity.
    + cbn [settle setSpeed assign] in H. injection H as H. subst w'.
      exists []. rewrite app_nil_r. reflexivity.
    + destruct H as (_ & H). subst w'.
      exists []. rewrite app_nil_r. reflexivity.
    + contradiction.
  - intros He. subst e. destruct H as (d & t & rest & _ & Ed & H).
    destruct (extends_settle rest (run_task t) (set_timers rest w) w'
                (extends_run_task rest t) eq_refl H) as [l Hl].
    exists d, t, rest, l. split; [exact Ed | exact Hl].
Qed.

Lemma timers_never_cancelled_witness :
  exists w1 w2,
    run [Click "green"] w_level2 = Some w1 /\
    step Start w1 = Some w2 /\
    exists added, timers w2 = timers w1 ++ added.
Proof.
  eexists. eexists. split; [vm_compute; reflexivity|].
  assert (H : step Start
                (reached (run [Click "green"] w_level2))
              = Some (reached (run [Click "green"; Start] w_level2)))
    by (vm_compute; reflexivity).
  split; [exact H|].
  exact (proj1 (timers_never_cancelled Start _ _ H)
           ltac:(discriminate)).
Defined.

(** ** The player's input between mismatches *)

Lemma prefix_snoc (sq ps rest : list color) (c : color) :
  sq = ps ++ rest ->
  option_color_eqb c (nth_error sq (List.length (ps ++ [c]) - 1)) = true ->
  exists rest', sq = (ps ++ [c]) ++ rest'.
Proof.
  intros Hp He. rewrite expected_after_push in He. subst sq.
  rewrite nth_error_app2 in He by lia. rewrite Nat.sub_diag in He.
  destruct rest as [|c' rest]; [discriminate He|].
  simpl in He. apply String.eqb_eq in He. subst c'.
  exists rest. rewrite <- app_assoc. reflexivity.
Qed.

Lemma take_due_other (d : Z) (ts rest : list (Z * task)) (t : task) :
  take_due d ts = Some (t, rest) ->
  t <> TEndGame ->
  In TEndGame (map snd ts) -> In TEndGame (map snd rest).
Proof.
  revert rest. induction ts as [|[d' t'] ts IH]; intros rest H Ht Hin;
    [discriminate H|].
  cbn [take_due] in H. destruct (d' =? d).
  - injection H as H1 H2. subst t' rest.
    destruct Hin as [Hin | Hin]; [simpl in Hin; contradiction | exact Hin].
  - destruct (take_due d ts) as [[t1 rest1]|]; [|discriminate H].
    injection H as H1 H2. subst t1 rest.
    destruct Hin as [Hin | Hin].
    + left. exact Hin.
    + right. apply (IH rest1 eq_refl Ht Hin).
Qed.

Ltac healthy_tac :=
  unfold healthy, flags_consistent in *;
  cbn [gm buttonsDisabled timers sequence playerSequence isShowingSequence
       isPlayerTurn isPlaying isPaused] in *;
  match goal with
  | H : _ /\ (_ \/ _ \/ _) |- _ =>
      let Hf := fresh "Hf" in
      let Hh := fresh "Hh" in
      let rest := fresh "rest" in
      destruct H as [Hf Hh]; split; [intuition congruence |];
      first
        [ right; right; reflexivity
        | left; eexists; reflexivity
        | right; left; rewrite !map_app; apply in_or_app; right; left;
          reflexivity
        | destruct Hh as [[rest Hh] | [Hh | Hh]];
          [ first [ left; exists rest; exact Hh
                  | left; eapply prefix_snoc; eassumption ]
          | right; left; rewrite ?map_app;
            first [ exact Hh | apply in_or_app; left; exact Hh ]
          | first [ right; right; exact Hh
                  | discriminate Hh
                  | exfalso; intuition congruence ] ] ]
  end.

Lemma healthy_startGame : keeps healthy startGame.
Proof. by_cases healthy_tac. Qed.

Lemma healthy_replaySequence : keeps healthy replaySequence.
Proof. by_cases healthy_tac. Qed.

Lemma healthy_togglePause : keeps healthy togglePause.
Proof. by_cases healthy_tac. Qed.

Lemma healthy_handleColorClick (c : color) :
  keeps healthy (handleColorClick c).
Proof. by_cases healthy_tac. Qed.

Lemma healthy_setDifficulty (d : string) : keeps healthy (setDifficulty d).
Proof. by_cases healthy_tac. Qed.

Lemma healthy_setSpeed (s : Z) : keeps healthy (setSpeed s).
Proof. by_cases healthy_tac. Qed.

Lemma healthy_run_task (t : task) : keeps healthy (run_task t).
Proof. destruct t; cbn [run_task]; by_cases healthy_tac. Qed.

Lemma healthy_endGame_any (w : world) :
  flags_consistent w ->
  match endGame w with
  | Returns _ w' => healthy w'
  | Throws _ w' => healthy w'
  | Starved => True
  end.
Proof.
  revert w. by_cases ltac:(unfold healthy; split; [flags_tac | right; right; reflexivity]).
Qed.

Lemma healthy_fire (w : world) (d : Z) (t : task) (rest : list (Z * task)) :
  healthy w -> take_due d (timers w) = Some (t, rest) ->
  match run_task t (set_timers rest w) with
  | Returns _ w' => healthy w'
  | Throws _ w' => healthy w'
  | Starved => True
  end.
Proof.
  intros Hw Hd.
  assert (Hf : flags_consistent (set_timers rest w)) by exact (proj1 Hw).
  destruct (task_is_endGame t) eqn:Et.
  - destruct t; try discriminate Et. cbn [run_task].
    exact (healthy_endGame_any (set_timers rest w) Hf).
  - apply healthy_run_task. split; [exact Hf|].
    destruct Hw as [_ [Hp | [Ht | Hpl]]].
    + left. exact Hp.
    + right. left. cbn [timers set_timers].
      apply (take_due_other d (timers w) rest t Hd); [|exact Ht].
      intros E. subst t. discriminate Et.
    + right. right. exact Hpl.
Qed.

Lemma healthy_reachable (w : world) : reachable w -> healthy w.
Proof.
  intros (p & d & s & draws & es & H).
  apply (run_keeps healthy) with (es := es) (w := new_world p d s draws);
    try exact H.
  - exact healthy_startGame.
  - exact healthy_replaySequence.
  - exact healthy_togglePause.
  - exact healthy_handleColorClick.
  - exact healthy_setDifficulty.
  - exact healthy_setSpeed.
  - intros w0 t H0. exact H0.
  - exact healthy_fire.
  - split.
    + unfold flags_consistent. cbn. intuition congruence.
    + left. exists []. reflexivity.
Qed.

(** X7.  In every reachable state in which a game is playing and no
    [endGame] scheduled by a mismatch is pending, the colors the player has
    submitted are the first colors of the sequence; so the player sequence
    is no longer than the sequence. *)
Theorem input_is_prefix (w : world) :
  reachable w ->
  isPlaying (gm w) = true ->
  ~ In TEndGame (map snd (timers w)) ->
  (exists rest, sequence (gm w) = playerSequence (gm w) ++ rest) /\
  (List.length (playerSequence (gm w)) <= List.length (sequence (gm w)))%nat.
Proof.
  intros Hr Hp Ht.
  destruct (healthy_reachable w Hr) as [_ [[rest H] | [H | H]]].
  - split; [exists rest; exact H|]. rewrite H, length_app. lia.
  - contradiction.
  - rewrite Hp in H. discriminate H.
Qed.

Lemma input_is_prefix_witness :
  (List.length (playerSequence (gm w_level2))
   <= List.length (sequence (gm w_level2)))%nat.
Proof.
  apply (input_is_prefix w_level2 level2_reachable).
  - reflexivity.
  - simpl. tauto.
Defined.

(** ** The presentation of the sequence *)

Lemma interval_of_nonneg (sp : Z) : 0 <= interval_of sp.
Proof.
  unfold interval_of. destruct sp as [|p|p]; try lia.
  repeat (destruct p as [p|p|]; try lia).
Qed.

Lemma rounds_succ (n : nat) (iv : Z) :
  rounds (S n) iv = Elapse iv :: Fire :: rounds n iv.
Proof. reflexivity. Qed.

(** One round of the presentation: the interval passes and the timer set by
    the [await] runs the loop from its next index. *)
Lemma resume_round (w : world) (i : nat) (iv : Z) (es : list event) :
  0 <= iv ->
  timers w = [(now w + iv, TShowResume i iv)] ->
  run (Elapse iv :: Fire :: es) w =
  match showSequence_loop iv i
          (set_timers [] (set_now (now w + iv) w)) with
  | Returns _ w' => run es w'
  | Throws _ w' => run es w'
  | Starved => None
  end.
Proof.
  intros Hiv Ht.
  destruct w as [p g bd n tm r lg]. cbn [timers now] in Ht. subst tm.
  cbn [run]. unfold step at 1. cbn [timers now forallb fst].
  replace (0 <=? iv) with true by (symmetry; apply Z.leb_le; exact Hiv).
  rewrite Z.leb_refl. cbn [andb].
  unfold step at 1. unfold set_now.
  cbn [pg gm buttonsDisabled now timers rng log least_due take_due].
  rewrite Z.min_id, Z.leb_refl, Z.eqb_refl. cbn [run_task].
  unfold set_timers. cbn [pg gm buttonsDisabled now timers rng log].
  destruct (showSequence_loop iv i _) as [a w' | e w' |]; reflexivity.
Qed.

Lemma showSequence_loop_presents (iv : Z) (todo : list color) :
  0 <= iv ->
  forall done w,
    sequence (gm w) = done ++ todo ->
    isPlaying (gm w) = true ->
    isPaused (gm w) = false ->
    timers w = [] ->
    exists w1 w2,
      showSequence_loop iv (List.length done) w = Returns tt w1 /\
      run (rounds (List.length todo) iv) w1 = Some w2 /\
      gm w2 = set_isPlayerTurn true (set_isShowingSequence false (gm w)) /\
      buttonsDisabled w2 = false /\
      now w2 = now w + Z.of_nat (List.length todo) * iv /\
      timers w2 = [] /\
      log w2 =
      log w ++ flashes (pg w) todo (List.length done)
      ++ (if has_feedback (pg w) then [Feedback YourTurn] else []).
Proof.
  intros Hiv. induction todo as [|c todo IH]; intros done w Hs Hp Hq Ht.
  - rewrite app_nil_r in Hs.
    destruct w as [[ga bo pb fb st bc]
                   [sq ps lv sc ip iss ipt ipa gs df sp] bd n tm r lg].
    cbn [gm sequence isPlaying isPaused timers] in *. subst sq ip ipa tm.
    pose proof (Nat.ltb_irrefl (List.length done)) as H0.
    unfold Nat.ltb in H0. cbn [Nat.leb] in H0.
    exec. rewrite H0. exec.
    destruct fb; exec; eexists; eexists;
      (split; [reflexivity|]); (split; [reflexivity|]);
      exec; repeat split; try lia; rewrite ?app_nil_r; reflexivity.
  - destruct w as [[ga bo pb fb st bc]
                   [sq ps lv sc ip iss ipt ipa gs df sp] bd n tm r lg].
    cbn [gm sequence isPlaying isPaused timers] in *. subst sq ip ipa tm.
    set (p := mkPage ga bo pb fb st bc).
    set (g := mkGame (done ++ c :: todo) ps lv sc true iss ipt false gs df sp).
    set (lg1 := lg ++ (if colorBtn_exists p c
                       then [Flash c (List.length done)] else [])).
    assert (E1 : showSequence_loop iv (List.length done)
                   (mkWorld p g bd n [] r lg)
                 = Returns tt
                     (mkWorld p g bd n
                        [(n + iv, TShowResume (S (List.length done)) iv)]
                        r lg1)).
    { assert (H1 : (List.length done <? List.length (done ++ c :: todo))%nat
                   = true)
        by (apply Nat.ltb_lt; rewrite length_app; simpl; lia).
      unfold Nat.ltb in H1. cbn [Nat.leb] in H1.
      subst p g lg1. exec. rewrite H1. exec. rewrite nth_middle.
      destruct (colorBtn_exists _ c); exec; rewrite ?app_nil_r; reflexivity. }
    destruct (IH (done ++ [c]) (mkWorld p g bd (n + iv) [] r lg1))
      as (w1 & w2 & E2 & E3 & Hg & Hb & Hn & Htm & Hl).
    + subst g. cbn [gm sequence]. rewrite <- app_assoc. reflexivity.
    + reflexivity.
    + reflexivity.
    + reflexivity.
    + exists (mkWorld p g bd n
                [(n + iv, TShowResume (S (List.length done)) iv)] r lg1), w2.
      split; [exact E1|].
      replace (List.length (done ++ [c])) with (S (List.length done)) in *
        by (rewrite length_app; simpl; lia).
      split.
      * cbn [List.length]. rewrite rounds_succ.
        rewrite (resume_round
                   (mkWorld p g bd n
                      [(n + iv, TShowResume (S (List.length done)) iv)]
                      r lg1)
                   (S (List.length done)) iv _ Hiv eq_refl).
        unfold set_now, set_timers.
        cbn [pg gm buttonsDisabled now timers rng log].
        rewrite E2. exact E3.
      * rewrite Hg, Hb, Hn, Htm, Hl. cbn [gm pg now log flashes].
        subst lg1. repeat split; try reflexivity.
        -- cbn [List.length]. lia.
        -- rewrite <- !app_assoc. reflexivity.
Qed.

(** X8.  Started in a playing, unpaused game with no other timer pending,
    [showSequence] flashes the colors of the sequence one by one in order
    (position 0 first), one every interval of the speed setting, and after
    as many intervals as there are colors the player's turn is open with
    the buttons enabled; the sequence, the player sequence, the level and
    the score are untouched. *)
Theorem showSequence_presents (w : world) :
  isPlaying (gm w) = true ->
  isPaused (gm w) = false ->
  timers w = [] ->
  let iv := interval_of (speed (gm w)) in
  let n := List.length (sequence (gm w)) in
  exists w1 w2,
    showSequence w = Returns tt w1 /\
    run (rounds n iv) w1 = Some w2 /\
    gm w2 = set_isPlayerTurn true (set_isShowingSequence false (gm w)) /\
    buttonsDisabled w2 = false /\
    now w2 = now w + Z.of_nat n * iv /\
    timers w2 = [] /\
    log w2 =
    log w
    ++ (if has_feedback (pg w) then [Feedback WatchTheSequence] else [])
    ++ flashes (pg w) (sequence (gm w)) 0
    ++ (if has_feedback (pg w) then [Feedback YourTurn] else []).
Proof.
  intros Hp Hq Ht iv n.
  destruct w as [[ga bo pb fb st bc]
                 [sq ps lv sc ip iss ipt ipa gs df sp] bd nw tm r lg].
  cbn [gm sequence speed isPlaying isPaused timers] in *. subst ip ipa tm.
  set (p := mkPage ga bo pb fb st bc).
  set (lg1 := lg ++ (if fb then [Feedback WatchTheSequence] else [])).
  destruct (showSequence_loop_presents iv sq (interval_of_nonneg sp) []
              (mkWorld p (mkGame sq ps lv sc true true false false gs df sp)
                       true nw [] r lg1))
    as (w1 & w2 & E1 & E2 & Hg & Hb & Hn & Htm & Hl); try reflexivity.
  exists w1, w2.
  split.
  - rewrite <- E1. subst p lg1 iv.
    destruct fb; exec; rewrite ?app_nil_r; reflexivity.
  - split; [exact E2|].
    rewrite Hg, Hb, Hn, Htm, Hl. subst p lg1. cbn [gm pg now log].
    repeat split. rewrite <- !app_assoc. reflexivity.
Qed.

Lemma showSequence_presents_witness :
  exists w1 w2,
    showSequence (set_timers [] w_level2) = Returns tt w1 /\
    run (rounds 2 800) w1 = Some w2 /\
    isPlayerTurn (gm w2) = true /\
    now w2 = now w_level2 + 2 * 800 /\
    log w2 =
    log w_level2
    ++ [Feedback WatchTheSequence; Flash "blue" 0; Flash "red" 1;
        Feedback YourTurn].
Proof.
  destruct (showSequence_presents (set_timers [] w_level2)
              eq_refl eq_refl eq_refl)
    as (w1 & w2 & E1 & E2 & Hg & _ & Hn & _ & Hl).
  exists w1, w2. split; [exact E1|]. split; [exact E2|].
  rewrite Hg, Hn, Hl. repeat split.
Defined.

(** ** Pausing *)

(** X9.  While a game is playing, on a page with the pause button,
    [togglePause] flips [isPaused] and nothing else of the object, and a
    second call puts the object back as it was, with the same timers,
    clock and draws; while no game is playing it does nothing at all. *)
Theorem togglePause_round_trip (w : world) :
  (isPlaying (gm w) = false -> togglePause w = Returns tt w) /\
  (isPlaying (gm w) = true -> has_pauseBtn (pg w) = true ->
   exists w1 w2,
     togglePause w = Returns tt w1 /\
     gm w1 = set_isPaused (negb (isPaused (gm w))) (gm w) /\
     togglePause w1 = Returns tt w2 /\
     gm w2 = gm w /\
     timers w2 = timers w /\ now w2 = now w /\ rng w2 = rng w).
Proof.
  destruct w as [[ga bo pb fb st bc]
                 [sq ps lv sc ip iss ipt ipa gs df sp] bd n tm r lg].
  cbn [gm pg isPlaying isPaused has_pauseBtn].
  split; intros Hp; [subst ip; reflexivity|].
  intros Hb. subst ip pb.
  destruct ipa, ipt, fb; exec; eexists; eexists;
    (split; [reflexivity|]); (split; [reflexivity|]);
    exec; repeat split.
Qed.

Lemma togglePause_round_trip_witness :
  exists w1 w2,
    togglePause w_level2 = Returns tt w1 /\
    gm w1 = set_isPaused (negb (isPaused (gm w_level2))) (gm w_level2) /\
    togglePause w1 = Returns tt w2 /\
    gm w2 = gm w_level2 /\
    timers w2 = timers w_level2 /\ now w2 = now w_level2 /\
    rng w2 = rng w_level2.
Proof.
  apply (togglePause_round_trip w_level2); reflexivity.
Defined.

(** X10.  A presentation that is paused is dropped, not suspended.  If the
    pause button is pressed while the sequence is being shown, the timer of
    the presentation still fires on time but ends the loop without opening
    the player's turn; after the resume the object is exactly as before the
    pause, still marked as showing the sequence, but no timer is pending,
    the buttons are disabled, and replay does nothing. *)
Theorem paused_presentation_is_dropped
        (w : world) (d iv : Z) (i : nat) :
  isPlaying (gm w) = true ->
  isShowingSequence (gm w) = true ->
  isPlayerTurn (gm w) = false ->
  isPaused (gm w) = false ->
  has_pauseBtn (pg w) = true ->
  timers w = [(d, TShowResume i iv)] ->
  now w <= d ->
  exists w',
    run [TogglePause; Elapse (d - now w); Fire; TogglePause] w = Some w' /\
    gm w' = gm w /\
    timers w' = [] /\
    buttonsDisabled w' = true /\
    replaySequence w' = Returns tt w' /\
    step Fire w' = None /\
    (forall c, step (Click c) w' = None).
Proof.
  intros Hp Hs Ht Hq Hb Htm Hn.
  destruct w as [[ga bo pb fb st bc]
                 [sq ps lv sc ip iss ipt ipa gs df sp] bd n tm r lg].
  cbn [gm pg isPlaying isShowingSequence isPlayerTurn isPaused has_pauseBtn
       timers now] in *.
  subst ip iss ipt ipa pb tm.
  assert (E1 : (0 <=? d - n) = true) by (apply Z.leb_le; lia).
  assert (E2 : n + (d - n) = d) by lia.
  cbn [run]. unfold step at 1.
  destruct fb; exec; cbn [settle].
  all: unfold step at 1; cbn [timers now forallb fst set_now];
    rewrite E1, E2, Z.leb_refl; cbn [andb].
  all: unfold step at 1; unfold set_now;
    cbn [pg gm buttonsDisabled now timers rng log least_due take_due];
    rewrite Z.min_id, Z.leb_refl, Z.eqb_refl; cbn [run_task].
  all: exec; destruct (i <? List.length sq)%nat eqn:E3;
    unfold Nat.ltb in E3; cbn [Nat.leb] in E3; rewrite ?E3; exec;
    cbn [settle].
  all: unfold step at 1; exec; cbn [settle].
  all: eexists; split; [reflexivity|]; exec;
    repeat split; intros;
    cbn [step timers buttonsDisabled pg negb];
    rewrite ?andb_false_r; reflexivity.
Qed.

(** A game whose first presentation is under way. *)
Lemma paused_presentation_is_dropped_witness :
  exists w',
    run [TogglePause; Elapse 800; Fire; TogglePause] w_showing = Some w' /\
    gm w' = gm w_showing /\
    timers w' = [] /\
    buttonsDisabled w' = true /\
    replaySequence w' = Returns tt w' /\
    step Fire w' = None /\
    (forall c, step (Click c) w' = None).
Proof.
  apply (paused_presentation_is_dropped w_showing 800 800 1);
    try reflexivity.
  discriminate.
Defined.

(** ** The level-up callback *)

(** X11.  The callback that [handleSequenceComplete] schedules checks
    nothing before it acts.  Whenever it returns it has raised the level by
    one, emptied the player sequence, appended one of the four colors to
    the sequence (the old sequence is kept as a prefix), left the score
    alone and marked the sequence as being shown; it never throws.  When
    the game has been paused or has ended in the meantime it does all that
    too, and then no presentation is started. *)
Theorem levelUp_unguarded (w : world) :
  match run_task TLevelUp w with
  | Returns _ w' =>
      level (gm w') = level (gm w) + 1 /\
      (exists c, In c colors /\ sequence (gm w') = sequence (gm w) ++ [c]) /\
      playerSequence (gm w') = [] /\
      score (gm w') = score (gm w) /\
      isShowingSequence (gm w') = true /\
      isPlayerTurn (gm w') = false /\
      isPlaying (gm w') = isPlaying (gm w) /\
      (isPlaying (gm w) = false \/ isPaused (gm w) = true ->
       timers w' = timers w)
  | Throws _ _ => False
  | Starved => rng w = [] \/ difficulty (gm w) = "easy"
  end.
Proof.
  destruct w as [[ga bo pb fb st bc]
                 [sq ps lv sc ip iss ipt ipa gs df sp] bd n tm r lg].
  cbn [run_task]. exec.
  pose proof (nextColor_result df
                (mkWorld (mkPage ga bo pb fb st bc)
                   (mkGame sq [] (lv + 1) sc ip iss ipt ipa gs df sp)
                   bd n tm r lg)) as Hnext.
  destruct (nextColor df _) as [c w1 | e w1 |] eqn:E.
  - destruct Hnext as [Hc [r' ->]].
    assert (Hlen : (0 <? List.length (sq ++ [c]))%nat = true)
      by (apply Nat.ltb_lt; rewrite length_app; simpl; lia).
    unfold Nat.ltb in Hlen. cbn [Nat.leb] in Hlen.
    destruct fb; exec; rewrite Hlen;
    destruct ip, ipa; exec;
      try (destruct (colorBtn_exists _ _); exec);
      repeat split; try (exists c; split; [exact Hc | reflexivity]);
      intros [H | H]; discriminate H.
  - contradiction.
  - unfold nextColor in E. cbn [rng gm sequence] in *.
    destruct (String.eqb df "easy") eqn:Ee.
    + right. apply String.eqb_eq. exact Ee.
    + left.
      assert (Hr : forall w0 : world, randomColor w0 = Starved -> rng w0 = []).
      { intros w0 H0. unfold randomColor, bind, random_index in H0.
        destruct (rng w0); [reflexivity | discriminate H0]. }
      destruct (String.eqb df "medium"); [exact (Hr _ E)|].
      destruct (String.eqb df "hard"); [exact (Hr _ E)|].
      destruct (String.eqb df "adaptive"); [|exact (Hr _ E)].
      rewrite getAdaptiveColor_random in E. exact (Hr _ E).
Qed.

(** ** Commands while no game is playing *)

(** X12.  In every reachable state in which no game is playing (before the
    first start, after a game over), a submitted color, the replay button
    and the pause button all leave the world exactly as it is. *)
Theorem idle_commands_ignored (w : world) (c : color) :
  reachable w ->
  isPlaying (gm w) = false ->
  handleColorClick c w = Returns tt w /\
  replaySequence w = Returns tt w /\
  togglePause w = Returns tt w.
Proof.
  intros Hr Hp. destruct (flags_reachable w Hr) as (_ & Ht & _).
  assert (Hturn : isPlayerTurn (gm w) = false).
  { destruct (isPlayerTurn (gm w)); [|reflexivity].
    rewrite (Ht eq_refl) in Hp. discriminate Hp. }
  unfold handleColorClick, replaySequence, togglePause, bind, this.
  rewrite Hturn, Hp. repeat split.
Qed.

Lemma game_over_reachable : reachable w_over.
Proof.
  exists game_page, "medium", 3, [draw_for 0],
    [Start; Elapse 800; Fire; Click "blue"; Elapse 1500; Fire].
  vm_compute. reflexivity.
Qed.

Lemma idle_commands_ignored_witness :
  handleColorClick "red" w_over = Returns tt w_over /\
  replaySequence w_over = Returns tt w_over /\
  togglePause w_over = Returns tt w_over.
Proof.
  apply (idle_commands_ignored w_over "red" game_over_reachable).
  reflexivity.
Defined.

(** ** A mismatch followed by nothing *)

(** X13.  A mismatching color submitted in an unpaused player's turn, with
    no other timer pending, is appended to the player sequence, changes
    neither score, level nor sequence, and schedules [endGame] for exactly
    1500 ms later; if nothing is submitted in between, the game is then
    over and the score reported to the storage manager and in the feedback
    is the score at the mismatch. *)
Theorem lone_mismatch_ends_game (w : world) (c : color) :
  isPlayerTurn (gm w) = true ->
  isPaused (gm w) = false ->
  colorBtn_exists (pg w) c = true ->
  nth_error (sequence (gm w)) (List.length (playerSequence (gm w))) <> Some c ->
  timers w = [] ->
  exists w1 w2,
    handleColorClick c w = Returns tt w1 /\
    gm w1 = set_playerSequence (playerSequence (gm w) ++ [c]) (gm w) /\
    timers w1 = [(now w + 1500, TEndGame)] /\
    run [Elapse 1500; Fire] w1 = Some w2 /\
    now w2 = now w + 1500 /\
    isPlaying (gm w2) = false /\
    isPlayerTurn (gm w2) = false /\
    score (gm w2) = score (gm w) /\
    log w2 =
    log w1
    ++ (if has_storage (pg w) && gameSession (gm w)
        then [RecordGameEnd (score (gm w)) (level (gm w))] else [])
    ++ (if has_feedback (pg w) then [Feedback (GameOver (score (gm w)))]
        else []).
Proof.
  intros Ht Hp Hb He Htm.
  destruct (mismatch_then_silence w c Ht Hp Hb He Htm)
    as (w1 & w2 & E & Hsc & Htm1 & Hrun & Hn & Hpl & Hsc2 & Hl).
  destruct (handleColorClick_mismatch w c Ht Hp Hb He)
    as (w1' & E' & Hg & _).
  rewrite E in E'. injection E' as E'. subst w1'.
  exists w1, w2. repeat split; try assumption.
  assert (Hf : settle (run_task TEndGame (set_timers [] (set_now (now w1 + 1500) w1)))
               = Some w2).
  { apply run_cons_inv in Hrun. destruct Hrun as (wa & Ea & Hrun).
    apply run_cons_inv in Hrun. destruct Hrun as (wb & Eb & Hrun).
    cbn [run] in Hrun. injection Hrun as Hrun. subst wb.
    apply (step_inv (Elapse 1500)) in Ea. destruct Ea as (_ & Ea). subst wa.
    apply (step_inv Fire) in Eb. destruct Eb as (d & t & rest & _ & Ed & Eb).
    cbn [timers set_now] in Ed. rewrite Htm1 in Ed. cbn [take_due] in Ed.
    destruct (now w + 1500 =? d); [|discriminate Ed].
    injection Ed as Ed1 Ed2. subst t rest. exact Eb. }
  cbn [run_task] in Hf.
  destruct (endGame_reports (set_timers [] (set_now (now w1 + 1500) w1)))
    as (w3 & E3 & Hg3 & _).
  rewrite E3 in Hf. cbn [settle] in Hf. injection Hf as Hf. subst w3.
  rewrite Hg3. reflexivity.
Qed.

Lemma lone_mismatch_ends_game_witness :
  exists w1 w2,
    handleColorClick "red" (set_timers [] w_level2) = Returns tt w1 /\
    run [Elapse 1500; Fire] w1 = Some w2 /\
    isPlaying (gm w2) = false /\
    score (gm w2) = 60.
Proof.
  destruct (lone_mismatch_ends_game (set_timers [] w_level2) "red")
    as (w1 & w2 & E & _ & _ & Hrun & _ & Hp & _ & Hs & _);
    try reflexivity.
  - discriminate.
  - exists w1, w2. repeat split; assumption.
Defined.

(** ** The win streak of the storage manager *)

Lemma updateStreak_keeps (completed : bool) (p : Storage.progress) :
  Storage.streak p <= Storage.longestStreak p ->
  0 <= Storage.longestStreak p ->
  Storage.streak (Storage.updateStreak completed p)
  <= Storage.longestStreak (Storage.updateStreak completed p) /\
  Storage.longestStreak p
  <= Storage.longestStreak (Storage.updateStreak completed p).
Proof.
  intros H H0. unfold Storage.updateStreak. cbv zeta. destruct completed.
  - destruct (Storage.longestStreak p <? Storage.streak p + 1) eqn:E;
      cbn [Storage.streak Storage.longestStreak];
      [apply Z.ltb_lt in E | apply Z.ltb_ge in E]; lia.
  - cbn [Storage.streak Storage.longestStreak]. lia.
Qed.

Lemma updateStreak_wins (k : nat) (p : Storage.progress) :
  Storage.streak (fold_left (fun q r => Storage.updateStreak r q)
                            (repeat true k) p)
  = Storage.streak p + Z.of_nat k.
Proof.
  revert p. induction k as [|k IH]; intros p.
  - simpl. lia.
  - cbn [repeat fold_left]. rewrite IH.
    unfold Storage.updateStreak. cbv zeta.
    destruct (Storage.longestStreak p <? Storage.streak p + 1);
      cbn [Storage.streak]; lia.
Qed.

(** X14.  Over any series of recorded game results, starting from a
    progress record whose longest streak is not negative and not below the
    current streak (the default record is one): the current streak never
    exceeds the longest streak, the longest streak never goes down, and
    after a lost game followed by [k] won games the current streak is
    exactly [k]. *)
Theorem updateStreak_series (results : list bool) (p : Storage.progress) :
  Storage.streak p <= Storage.longestStreak p ->
  0 <= Storage.longestStreak p ->
  let run_series := fold_left (fun q r => Storage.updateStreak r q) in
  Storage.streak (run_series results p)
  <= Storage.longestStreak (run_series results p) /\
  Storage.longestStreak p <= Storage.longestStreak (run_series results p) /\
  (forall k,
     Storage.streak (run_series (results ++ false :: repeat true k) p)
     = Z.of_nat k).
Proof.
  intros H H0 run_series. subst run_series.
  assert (Hinv : forall rs q,
             Storage.streak q <= Storage.longestStreak q ->
             0 <= Storage.longestStreak q ->
             Storage.streak (fold_left (fun q r => Storage.updateStreak r q) rs q)
             <= Storage.longestStreak
                  (fold_left (fun q r => Storage.updateStreak r q) rs q) /\
             Storage.longestStreak q
             <= Storage.longestStreak
                  (fold_left (fun q r => Storage.updateStreak r q) rs q)).
  { induction rs as [|r rs IH]; intros q Hq Hq0.
    - simpl. lia.
    - cbn [fold_left].
      destruct (updateStreak_keeps r q Hq Hq0) as [H1 H2].
      destruct (IH _ H1) as [H3 H4]; [lia|]. split; [exact H3 | lia]. }
  destruct (Hinv results p H H0) as [H1 H2].
  split; [exact H1|]. split; [exact H2|].
  intros k. rewrite fold_left_app. cbn [fold_left].
  rewrite updateStreak_wins. reflexivity.
Qed.

Lemma updateStreak_series_witness :
  Storage.streak
    (fold_left (fun q r => Storage.updateStreak r q)
               ([true; true] ++ false :: repeat true 3)
               Storage.defaultProgress)
  = 3.
Proof.
  destruct (updateStreak_series [true; true] Storage.defaultProgress)
    as (_ & _ & H).
  - cbn. lia.
  - cbn. lia.
  - exact (H 3%nat).
Defined.

(** ** Only a restart takes anything back *)

Ltac grown_tac :=
  unfold grown in *; cbn [gm sequence level score] in *;
  match goal with
  | H : _ /\ _ /\ _ /\ (exists _, _) |- _ =>
      let l := fresh "l" in
      let Hq := fresh "Hq" in
      destruct H as (? & ? & ? & [l Hq]); subst;
      repeat split; try lia;
      rewrite <- ?app_assoc; eexists; reflexivity
  end.

Lemma grown_replaySequence s0 l0 q0 : keeps (grown s0 l0 q0) replaySequence.
Proof. by_cases grown_tac. Qed.

Lemma grown_togglePause s0 l0 q0 : keeps (grown s0 l0 q0) togglePause.
Proof. by_cases grown_tac. Qed.

Lemma grown_handleColorClick s0 l0 q0 (c : color) :
  keeps (grown s0 l0 q0) (handleColorClick c).
Proof. by_cases grown_tac. Qed.

Lemma grown_setDifficulty s0 l0 q0 (d : string) :
  keeps (grown s0 l0 q0) (setDifficulty d).
Proof. by_cases grown_tac. Qed.

Lemma grown_setSpeed s0 l0 q0 (s : Z) : keeps (grown s0 l0 q0) (setSpeed s).
Proof. by_cases grown_tac. Qed.

Lemma grown_run_task s0 l0 q0 (t : task) : keeps (grown s0 l0 q0) (run_task t).
Proof. destruct t; cbn [run_task]; by_cases grown_tac. Qed.

Lemma grown_settle s0 l0 q0 (m : M unit) (w w' : world) :
  keeps (grown s0 l0 q0) m -> grown s0 l0 q0 w ->
  settle (m w) = Some w' -> grown s0 l0 q0 w'.
Proof.
  intros Hm Hw H. specialize (Hm w Hw).
  destruct (m w) as [a w1 | e w1 |]; simpl in H; try discriminate H;
    injection H as H; subst w1; exact Hm.
Qed.

(** X15.  From a reachable state, no event other than a restart takes
    anything back: the score does not go down, the level does not go down,
    and the sequence keeps all its colors in place (new ones are added at
    the end). *)
Theorem only_restart_takes_back (e : event) (w w' : world) :
  reachable w ->
  e <> Start ->
  step e w = Some w' ->
  score (gm w) <= score (gm w') /\
  level (gm w) <= level (gm w') /\
  exists added, sequence (gm w') = sequence (gm w) ++ added.
Proof.
  intros Hr He H.
  assert (Hw : grown (score (gm w)) (level (gm w)) (sequence (gm w)) w).
  { destruct (sound_reachable w Hr) as (_ & Hl & _).
    repeat split; try lia. exists []. rewrite app_nil_r. reflexivity. }
  assert (Hw' : grown (score (gm w)) (level (gm w)) (sequence (gm w)) w').
  { apply step_inv in H. destruct e.
    - contradiction.
    - exact (grown_settle _ _ _ replaySequence w w'
               (grown_replaySequence _ _ _) Hw H).
    - exact (grown_settle _ _ _ togglePause w w'
               (grown_togglePause _ _ _) Hw H).
    - destruct H as (_ & _ & H).
      exact (grown_settle _ _ _ (handleColorClick c) w w'
               (grown_handleColorClick _ _ _ c) Hw H).
    - exact (grown_settle _ _ _ (setDifficulty d) w w'
               (grown_setDifficulty _ _ _ d) Hw H).
    - exact (grown_settle _ _ _ (setSpeed s) w w'
               (grown_setSpeed _ _ _ s) Hw H).
    - destruct H as (_ & H). subst w'. exact Hw.
    - destruct H as (d & t & rest & _ & _ & H).
      exact (grown_settle _ _ _ (run_task t) (set_timers rest w) w'
               (grown_run_task _ _ _ t) Hw H). }
  destruct Hw' as (_ & Hs & Hl & Hq). repeat split; assumption.
Qed.

Lemma only_restart_takes_back_witness :
  score (gm w_level2) <= score (gm (reached (run [Click "blue"] w_level2))).
Proof.
  assert (H : step (Click "blue") w_level2
              = Some (reached (run [Click "blue"] w_level2)))
    by (vm_compute; reflexivity).
  exact (proj1 (only_restart_takes_back (Click "blue") w_level2 _
                  level2_reachable ltac:(discriminate) H)).
Defined.
